(** * Jeopardy board (jeopardy.js): a shallow embedding and its properties

    The script is modelled as state-passing code over a [World] that holds
    the JavaScript objects the script creates (clue records), the DOM
    elements it reads and writes, the module-level [categories] variable,
    the console, the log of HTTP requests, and the two sources the script
    cannot control: the remote service and the random number generator. *)

From Stdlib Require Import String List Arith Lia Permutation.
From stdpp Require Import base list strings.
Import ListNotations.
Local Open Scope string_scope.
Set Warnings "-register-all".
Abbreviation addr := nat.

(** ** JavaScript values *)

(** Values that travel through the HTTP responses (parsed JSON) and end up
    in the fields of categories and clues.  A number is carried by the text
    that JavaScript's number-to-string conversion gives for it: the script
    never computes with numbers, it only prints them.  [JObj] lists the own
    properties of an object, the first binding of a key being the live one. *)
Inductive JsVal : Type :=
| JUndefined
| JNull
| JBool (b : bool)
| JNum (repr : string)
| JStr (s : string)
| JArr (items : list JsVal)
| JObj (props : list (string * JsVal)).

Inductive Error : Type :=
| TypeError
| NetworkError
| ErrorMsg (msg : string).

Inductive Result (A : Type) : Type :=
| Ok (a : A)
| Throw (e : Error).
Arguments Ok {A} a.
Arguments Throw {A} e.

Definition is_ok {A} (r : Result A) : bool :=
  match r with Ok _ => true | Throw _ => false end.

Fixpoint lookup_prop (k : string) (props : list (string * JsVal)) : option JsVal :=
  match props with
  | [] => None
  | (k', v) :: rest => if String.eqb k k' then Some v else lookup_prop k rest
  end.

(** [v.name] for the property names the script reads from response data
    ([id], [title], [clues], [question], [answer]); none of them is defined
    on a built-in prototype, so only own properties of objects answer.
    Reading a property of [undefined] or [null] is a TypeError. *)
Definition getProp (v : JsVal) (name : string) : Result JsVal :=
  match v with
  | JUndefined | JNull => Throw TypeError
  | JObj props => Ok (default JUndefined (lookup_prop name props))
  | _ => Ok JUndefined
  end.

(** Array.prototype.join with the default separator, on the strings of the
    items. *)
Fixpoint join_comma (parts : list string) : string :=
  match parts with
  | [] => EmptyString
  | [p] => p
  | p :: rest => p +:+ "," +:+ join_comma rest
  end.

Fixpoint sequence_result {A} (rs : list (Result A)) : Result (list A) :=
  match rs with
  | [] => Ok []
  | Ok a :: rest =>
      match sequence_result rest with
      | Ok l => Ok (a :: l)
      | Throw e => Throw e
      end
  | Throw e :: _ => Throw e
  end.

(** The abstract operation ToString.  An array prints its items separated
    by commas, [null] and [undefined] items printing as nothing.  A plain
    object prints through Object.prototype.toString unless an own property
    named [toString] shadows it; parsed data is never callable, so then no
    conversion exists and a TypeError is thrown. *)
Fixpoint ToString (v : JsVal) : Result string :=
  match v with
  | JUndefined => Ok "undefined"
  | JNull => Ok "null"
  | JBool true => Ok "true"
  | JBool false => Ok "false"
  | JNum repr => Ok repr
  | JStr s => Ok s
  | JArr items =>
      match sequence_result
              (map (fun item =>
                      match item with
                      | JUndefined | JNull => Ok EmptyString
                      | _ => ToString item
                      end) items) with
      | Ok parts => Ok (join_comma parts)
      | Throw e => Throw e
      end
  | JObj props =>
      match lookup_prop "toString" props with
      | Some _ => Throw TypeError
      | None => Ok "[object Object]"
      end
  end.

(** Conversion to the nullable string type of the [textContent] attribute:
    [null] and [undefined] become the empty string. *)
Definition ToDOMString (v : JsVal) : Result string :=
  match v with
  | JUndefined | JNull => Ok EmptyString
  | _ => ToString v
  end.

(** ** Objects of the script and of the page *)


(** A clue record, [{question, answer, showing}]. *)
Record Clue : Type := mkClue {
  question : JsVal;
  answer : JsVal;
  showing : JsVal
}.

(** A category, [{title, clues}]; the clue records are shared objects and
    are held by their addresses in the heap of the world. *)
Record Category : Type := mkCategory {
  title : JsVal;
  clues : list addr
}.

Inductive Child : Type :=
| TextNode (s : string)
| ElemNode (a : addr).

(** What the script can see of a DOM element.  [target] is the attribute of
    that name that anchors, areas, forms and base elements have (absent on
    every other element); [clue] is the expando property that [handleClick]
    reads (absent, or a clue record); [clickListeners] counts the listeners
    that [addClueClickHandler] registered on the element. *)
Record Element : Type := mkElement {
  tagName : string;
  className : list string;
  target : option string;
  clue : option addr;
  clickListeners : nat;
  display : string;
  disabled : bool;
  childNodes : list Child
}.

Definition fresh_element (tag : string) : Element :=
  {| tagName := tag; className := []; target := None; clue := None;
     clickListeners := 0; display := EmptyString; disabled := false; childNodes := [] |}.

(** Modelled from the spec: the page (index.html) is not part of the
    sources.  The spec lists a table element, a loading indicator and a
    fetch button; the record gives the element each selector of the script
    resolves to, [None] when the page has no such element.  The three are
    taken not to lie inside one another, so that the script's own writes do
    not change what the selectors find. *)
Record Page : Type := mkPage {
  jeopardyTable : option addr;
  loadingSpinner : option addr;
  fetchDataButton : option addr
}.

Inductive Response : Type :=
| Rejected
| Resolved (data : JsVal).

(** An HTTP request the script has sent, with the elements of the page as
    they stood at the moment it was sent. *)
Record Request : Type := mkRequest {
  url : string;
  dom_then : list Element
}.

Record World : Type := mkWorld {
  heap : list Clue;
  dom : list Element;
  page : Page;
  categories : list Category;
  console : list Error;
  sent : list Request;
  drawn : nat;
  network : nat -> string -> Response;
  entropy : nat -> nat
}.

Definition set_heap (f : list Clue -> list Clue) (w : World) : World :=
  mkWorld (f (heap w)) (dom w) (page w) (categories w) (console w) (sent w)
          (drawn w) (network w) (entropy w).
Definition set_dom (f : list Element -> list Element) (w : World) : World :=
  mkWorld (heap w) (f (dom w)) (page w) (categories w) (console w) (sent w)
          (drawn w) (network w) (entropy w).
Definition set_categories (c : list Category) (w : World) : World :=
  mkWorld (heap w) (dom w) (page w) c (console w) (sent w)
          (drawn w) (network w) (entropy w).
Definition set_console (f : list Error -> list Error) (w : World) : World :=
  mkWorld (heap w) (dom w) (page w) (categories w) (f (console w)) (sent w)
          (drawn w) (network w) (entropy w).
Definition set_sent (f : list Request -> list Request) (w : World) : World :=
  mkWorld (heap w) (dom w) (page w) (categories w) (console w) (f (sent w))
          (drawn w) (network w) (entropy w).
Definition set_drawn (f : nat -> nat) (w : World) : World :=
  mkWorld (heap w) (dom w) (page w) (categories w) (console w) (sent w)
          (f (drawn w)) (network w) (entropy w).

(** ** Computations: state that survives an exception *)

Definition M (A : Type) : Type := World -> Result A * World.

Definition ret {A} (a : A) : M A := fun w => (Ok a, w).
Definition throw {A} (e : Error) : M A := fun w => (Throw e, w).
Definition bind {A B} (m : M A) (k : A -> M B) : M B :=
  fun w =>
    match m w with
    | (Ok a, w') => k a w'
    | (Throw e, w') => (Throw e, w')
    end.
Definition try_catch {A} (body : M A) (handler : Error -> M A) : M A :=
  fun w =>
    match body w with
    | (Ok a, w') => (Ok a, w')
    | (Throw e, w') => handler e w'
    end.
Definition lift {A} (r : Result A) : M A := fun w => (r, w).
Definition gets {A} (f : World -> A) : M A := fun w => (Ok (f w), w).
Definition modify (f : World -> World) : M unit := fun w => (Ok tt, f w).

Declare Scope js_scope.
Delimit Scope js_scope with js.
Notation "x <- m ; k" := (bind m (fun x => k))
  (at level 100, m at next level, right associativity) : js_scope.
Notation "m ;; k" := (bind m (fun _ => k))
  (at level 100, right associativity) : js_scope.
Local Open Scope js_scope.

Definition exec {A} (m : M A) (w : World) : World := snd (m w).
Definition eval {A} (m : M A) (w : World) : Result A := fst (m w).

(** [list.forEach(f)]: the first exception ends the loop. *)
Fixpoint forEach {A} (f : A -> M unit) (l : list A) : M unit :=
  match l with
  | [] => ret tt
  | x :: rest => f x ;; forEach f rest
  end.

(** [list.map(f)] with a callback that has effects. *)
Fixpoint mapM {A B} (f : A -> M B) (l : list A) : M (list B) :=
  match l with
  | [] => ret []
  | x :: rest => y <- f x ; ys <- mapM f rest ; ret (y :: ys)
  end.

(** [data.map(f)] on a response value: only an array has a [map] method. *)
Definition array_map {B} (f : JsVal -> M B) (v : JsVal) : M (list B) :=
  match v with
  | JArr items => mapM f items
  | _ => throw TypeError
  end.

Definition console_error (e : Error) : M unit :=
  modify (set_console (fun l => (l ++ [e])%list)).

(** ** The remote service, the random source, lodash *)

Definition BASE_API_URL : string := "https://jservice.io/api/".
Definition NUM_CATEGORIES : nat := 6.
Definition NUM_CLUES_PER_CAT : nat := 5.

(** [await axios.get(u)], then [.data]: the request is logged with the page
    as it stands, and the service answers the k-th request of the run as it
    pleases.  Between the sending of a request and the arrival of its
    answer no code of the script runs, so the page keeps that state for as
    long as the request is in flight. *)
Definition axios_get (u : string) : M JsVal :=
  fun w =>
    let w' := set_sent (fun l => (l ++ [mkRequest u (dom w)])%list) w in
    match network w (length (sent w)) u with
    | Rejected => (Throw NetworkError, w')
    | Resolved data => (Ok data, w')
    end.

(** lodash's [baseRandom(lower, upper)]: an integer between the bounds,
    both included, from the next value of the random source. *)
Definition baseRandom (lower upper : nat) : M nat :=
  fun w =>
    (Ok (lower + entropy w (drawn w) mod (upper - lower + 1)), set_drawn S w).

(** lodash's [shuffleSelf(array, size)]: a Fisher-Yates shuffle stopped after
    [size] exchanges, [array.length = size] cutting off the rest. *)
Fixpoint shuffle_from (steps index : nat) (array : list JsVal) : M (list JsVal) :=
  match steps with
  | 0 => ret array
  | S steps' =>
      rand <- baseRandom index (length array - 1);
      let value := default JUndefined (array !! rand) in
      let array := <[rand := default JUndefined (array !! index)]> array in
      let array := <[index := value]> array in
      shuffle_from steps' (S index) array
  end.

Definition shuffleSelf (array : list JsVal) (size : nat) : M (list JsVal) :=
  array <- shuffle_from size 0 array;
  ret (take size array).

(** [_.sampleSize(collection, n)] on an array: [arraySampleSize], that is
    [shuffleSelf(copyArray(array), baseClamp(n, 0, array.length))]. *)
Definition sampleSize (collection : list JsVal) (n : nat) : M (list JsVal) :=
  shuffleSelf collection (Nat.min n (length collection)).

(** ** Fetching *)

Definition getCategoryIds : M (list JsVal) :=
  data <- axios_get (BASE_API_URL +:+ "categories?count=100");
  catIds <- array_map (fun category => lift (getProp category "id")) data;
  sampleSize catIds NUM_CATEGORIES.

Definition new_clue (c : Clue) : M addr :=
  fun w => (Ok (length (heap w)), set_heap (fun h => (h ++ [c])%list) w).

Definition getCategory (catId : JsVal) : M Category :=
  try_catch
    (id <- lift (ToString catId);
     categoryData <- axios_get (BASE_API_URL +:+ "categories/" +:+ id +:+ "/clues");
     title <- lift (getProp categoryData "title");
     raw <- lift (getProp categoryData "clues");
     clues <- array_map
                (fun clue =>
                   q <- lift (getProp clue "question");
                   a <- lift (getProp clue "answer");
                   new_clue {| question := q; answer := a; showing := JNull |})
                raw;
     ret {| title := title; clues := clues |})
    (fun error =>
       console_error error;;
       throw (ErrorMsg "Failed to retrieve category data")).

(** The promises made by [ids.map(catId => getCategory(catId))] all run to
    their end whatever becomes of the others.  They share nothing but the
    console and the request log, so they are run here one after the other,
    in the order in which their requests are sent. *)
Fixpoint settle_all {A} (ps : list (M A)) : M (list (Result A)) :=
  match ps with
  | [] => ret []
  | p :: rest =>
      fun w =>
        let (r, w1) := p w in
        let (rs, w2) := settle_all rest w1 in
        match rs with
        | Ok l => (Ok (r :: l), w2)
        | Throw e => (Throw e, w2)
        end
  end.

(** [await Promise.all(promises)]: the list of results, or the rejection of
    a promise that failed. *)
Definition Promise_all {A} (ps : list (M A)) : M (list A) :=
  rs <- settle_all ps;
  lift (sequence_result rs).

(** ** DOM operations *)

Definition set_childNodes (k : list Child) (e : Element) : Element :=
  mkElement (tagName e) (className e) (target e) (clue e) (clickListeners e)
            (display e) (disabled e) k.
Definition set_display (s : string) (e : Element) : Element :=
  mkElement (tagName e) (className e) (target e) (clue e) (clickListeners e)
            s (disabled e) (childNodes e).
Definition set_disabled (b : bool) (e : Element) : Element :=
  mkElement (tagName e) (className e) (target e) (clue e) (clickListeners e)
            (display e) b (childNodes e).
Definition set_clickListeners (n : nat) (e : Element) : Element :=
  mkElement (tagName e) (className e) (target e) (clue e) n
            (display e) (disabled e) (childNodes e).

(** A selector of the script, resolved by the page; [None] is [null]. *)
Definition querySelector (sel : Page -> option addr) : M (option addr) :=
  gets (fun w =>
          match sel (page w) with
          | Some a =>
              match dom w !! a with
              | Some _ => Some a
              | None => None
              end
          | None => None
          end).

(** Using the result of a selector: a property of [null] is a TypeError. *)
Definition deref (r : option addr) : M addr :=
  match r with
  | Some a => ret a
  | None => throw TypeError
  end.

Definition getElement (a : addr) : M Element :=
  fun w =>
    match dom w !! a with
    | Some e => (Ok e, w)
    | None => (Throw TypeError, w)
    end.

Definition update_element (a : addr) (f : Element -> Element) : M unit :=
  modify (set_dom (alter f a)).

Definition createElement (tag : string) : M addr :=
  fun w => (Ok (length (dom w)), set_dom (fun d => (d ++ [fresh_element tag])%list) w).

Definition appendChild (parent child : addr) : M unit :=
  update_element parent
    (fun e => set_childNodes (childNodes e ++ [ElemNode child])%list e).

Definition text_nodes (s : string) : list Child :=
  if String.eqb s EmptyString then [] else [TextNode s].

(** [element.textContent = v]: the children give way to one text node. *)
Definition setTextContent (a : addr) (v : JsVal) : M unit :=
  s <- lift (ToDOMString v);
  update_element a (set_childNodes (text_nodes s)).

Definition has_tag (d : list Element) (tag : string) (c : Child) : bool :=
  match c with
  | TextNode _ => false
  | ElemNode a =>
      match d !! a with
      | Some e => String.eqb (tagName e) tag
      | None => false
      end
  end.

Definition is_element (c : Child) : bool :=
  match c with TextNode _ => false | ElemNode _ => true end.

Fixpoint find_child (d : list Element) (tag : string) (kids : list Child) : option addr :=
  match kids with
  | [] => None
  | TextNode _ :: rest => find_child d tag rest
  | ElemNode a :: rest =>
      if has_tag d tag (ElemNode a) then Some a else find_child d tag rest
  end.

(** Where [createTHead] puts a new head: before the first element child
    that is neither a caption nor a colgroup, at the end if there is none. *)
Fixpoint insert_thead (d : list Element) (new : addr) (kids : list Child) : list Child :=
  match kids with
  | [] => [ElemNode new]
  | k :: rest =>
      if is_element k && negb (has_tag d "caption" k || has_tag d "colgroup" k)
      then ElemNode new :: k :: rest
      else k :: insert_thead d new rest
  end.

(** Where [createTBody] puts a new body: after the last body, at the end if
    there is none. *)
Fixpoint insert_tbody (d : list Element) (new : addr) (kids : list Child) : list Child :=
  match kids with
  | [] => [ElemNode new]
  | k :: rest =>
      if existsb (has_tag d "tbody") rest then k :: insert_tbody d new rest
      else if has_tag d "tbody" k then k :: ElemNode new :: rest
      else (k :: rest ++ [ElemNode new])%list
  end.

Definition createTHead (table : addr) : M addr :=
  t <- getElement table;
  d <- gets dom;
  match find_child d "thead" (childNodes t) with
  | Some thead => ret thead
  | None =>
      thead <- createElement "thead";
      update_element table
        (fun e => set_childNodes (insert_thead d thead (childNodes e)) e);;
      ret thead
  end.

Definition createTBody (table : addr) : M addr :=
  tbody <- createElement "tbody";
  d <- gets dom;
  update_element table
    (fun e => set_childNodes (insert_tbody d tbody (childNodes e)) e);;
  ret tbody.

(** [section.insertRow()] and [row.insertCell()], without an index: a new
    row, a new cell, at the end. *)
Definition insertRow (section : addr) : M addr :=
  tr <- createElement "tr";
  appendChild section tr;;
  ret tr.

Definition insertCell (row : addr) : M addr :=
  td <- createElement "td";
  appendChild row td;;
  ret td.

(** [for (let i = 0; i < n; i++) body] for a body that does not use [i]. *)
Fixpoint times (n : nat) (body : M unit) : M unit :=
  match n with
  | 0 => ret tt
  | S n' => body;; times n' body
  end.

(** ** The script *)

Definition fillTable : M unit :=
  try_catch
    (categoryIds <- getCategoryIds;
     cats <- Promise_all (map getCategory categoryIds);
     modify (set_categories cats);;
     r <- querySelector jeopardyTable;
     table <- deref r;
     thead <- createTHead table;
     headerRow <- insertRow thead;
     cs <- gets categories;
     forEach
       (fun category =>
          headerCell <- createElement "th";
          setTextContent headerCell (title category);;
          appendChild headerRow headerCell)
       cs;;
     tbody <- createTBody table;
     times NUM_CLUES_PER_CAT
       (bodyRow <- insertRow tbody;
        cs <- gets categories;
        forEach
          (fun category =>
             bodyCell <- insertCell bodyRow;
             questionCell <- createElement "span";
             setTextContent questionCell (JStr "?");;
             appendChild bodyCell questionCell)
          cs))
    (fun error => console_error error).

(** What [handleClick] may be handed and what it may meet on the way: an
    element, an event with its target, a clue record, a string (the
    [target] attribute of a link or a form), [undefined]. *)
Inductive Value : Type :=
| VUndefined
| VString (s : string)
| VElem (a : addr)
| VEvent (target : Value)
| VClue (a : addr).

(** [evt.target] *)
Definition get_target (evt : Value) : M Value :=
  match evt with
  | VUndefined => throw TypeError
  | VEvent t => ret t
  | VElem a =>
      e <- getElement a;
      ret (match target e with Some s => VString s | None => VUndefined end)
  | VString _ | VClue _ => ret VUndefined
  end.

(** [clueElement.clue] *)
Definition get_clue (clueElement : Value) : M Value :=
  match clueElement with
  | VUndefined => throw TypeError
  | VElem a =>
      e <- getElement a;
      ret (match clue e with Some c => VClue c | None => VUndefined end)
  | VString _ | VEvent _ | VClue _ => ret VUndefined
  end.

(** [clue.showing], [clue.question], [clue.answer] *)
Definition get_field (field : Clue -> JsVal) (clue : Value) : M JsVal :=
  match clue with
  | VUndefined => throw TypeError
  | VClue a =>
      fun w =>
        match heap w !! a with
        | Some c => (Ok (field c), w)
        | None => (Throw TypeError, w)
        end
  | VString _ | VElem _ | VEvent _ => ret JUndefined
  end.

(** [clue.showing = s]; only a clue record can have come this far. *)
Definition put_showing (clue : Value) (s : JsVal) : M unit :=
  match clue with
  | VClue a =>
      modify (set_heap (alter (fun c => mkClue (question c) (answer c) s) a))
  | _ => ret tt
  end.

(** [clueElement.textContent = v]; only an element carries a clue record. *)
Definition put_textContent (clueElement : Value) (v : JsVal) : M unit :=
  match clueElement with
  | VElem a => setTextContent a v
  | _ => ret tt
  end.

Definition is_null (v : JsVal) : bool :=
  match v with JNull => true | _ => false end.

Definition is_string (s : string) (v : JsVal) : bool :=
  match v with JStr s' => String.eqb s' s | _ => false end.

Definition handleClick (evt : Value) : M unit :=
  clueElement <- get_target evt;
  clue <- get_clue clueElement;
  showing <- get_field showing clue;
  if is_null showing then
    q <- get_field question clue;
    put_textContent clueElement q;;
    put_showing clue (JStr "question")
  else if is_string "question" showing then
    a <- get_field answer clue;
    put_textContent clueElement a;;
    put_showing clue (JStr "answer")
  else ret tt.

Definition showLoadingView : M unit :=
  r <- querySelector jeopardyTable;
  jeopardyTable <- deref r;
  update_element jeopardyTable (set_childNodes []);;
  r <- querySelector loadingSpinner;
  loadingSpinner <- deref r;
  update_element loadingSpinner (set_display "block");;
  r <- querySelector fetchDataButton;
  fetchDataButton <- deref r;
  update_element fetchDataButton (set_disabled true);;
  setTextContent fetchDataButton (JStr "Loading...").

Definition hideLoadingView : M unit :=
  r <- querySelector loadingSpinner;
  loadingSpinner <- deref r;
  update_element loadingSpinner (set_display "none");;
  r <- querySelector fetchDataButton;
  fetchDataButton <- deref r;
  update_element fetchDataButton (set_disabled false);;
  setTextContent fetchDataButton (JStr "Fetch Data").

(** [fillTable(categories)] passes an argument to a function that declares
    none, and does not wait for it; [fillTable] catches all it throws. *)
Definition setupAndStart : M unit :=
  try_catch
    (hideLoadingView;;
     categoryIds <- getCategoryIds;
     categories <- Promise_all (map getCategory categoryIds);
     fillTable)
    (fun error => console_error error).

Definition startGame : M unit :=
  showLoadingView;;
  setupAndStart.

(** ** Click listeners *)

Definition has_class (c : string) (e : Element) : bool :=
  existsb (String.eqb c) (className e).

(** [document.querySelectorAll('.clue')], in the order of the elements. *)
Definition querySelectorAll_clue : M (list addr) :=
  gets (fun w =>
          List.filter (fun a => match dom w !! a with
                                | Some e => has_class "clue" e
                                | None => false
                                end)
                      (seq 0 (length (dom w)))).

Definition addClueClickHandler : M unit :=
  clues <- querySelectorAll_clue;
  forEach
    (fun clue =>
       update_element clue (fun e => set_clickListeners (S (clickListeners e)) e))
    clues.

(** The listener that [addClueClickHandler] registers: [handleClick(this)],
    [this] being the element the listener sits on.  What a listener throws
    is reported on the console and the dispatch goes on. *)
Definition clue_listener (this : addr) : M unit :=
  try_catch (handleClick (VElem this)) (fun error => console_error error).

Definition parent_of (d : list Element) (a : addr) : option addr :=
  List.find (fun p => match d !! p with
                      | Some e => existsb (fun c => match c with
                                                    | ElemNode b => Nat.eqb a b
                                                    | TextNode _ => false
                                                    end) (childNodes e)
                      | None => false
                      end)
            (seq 0 (length d)).

(** The element clicked, then its ancestors from the nearest on. *)
Fixpoint propagation_path (fuel : nat) (d : list Element) (a : addr) : list addr :=
  match fuel with
  | 0 => [a]
  | S fuel' =>
      match parent_of d a with
      | Some p => a :: propagation_path fuel' d p
      | None => [a]
      end
  end.

(** A click of the user on the element at [a]: every listener on the way up
    runs, each with the element it sits on as [this]. *)
Definition click (a : addr) : M unit :=
  d <- gets dom;
  forEach
    (fun this =>
       e <- getElement this;
       times (clickListeners e) (clue_listener this))
    (propagation_path (length d) d a).

(** ** Observations used to state the properties *)

(** The [textContent] an element shows: the text of its descendants, in
    order.  The fuel bounds the depth that is read. *)
Fixpoint textContent (fuel : nat) (d : list Element) (a : addr) : string :=
  match fuel with
  | 0 => EmptyString
  | S fuel' =>
      match d !! a with
      | Some e =>
          String.concat EmptyString
            (map (fun c => match c with
                           | TextNode s => s
                           | ElemNode b => textContent fuel' d b
                           end) (childNodes e))
      | None => EmptyString
      end
  end.

Definition displayed (d : list Element) (a : addr) : string :=
  textContent (S (length d)) d a.

(** The stages of a clue: hidden, question shown, and the last one, which
    [handleClick] leaves alone. *)
Definition stage (v : JsVal) : nat :=
  match v with
  | JNull => 0
  | JStr s => if String.eqb s "question" then 1 else 2
  | _ => 2
  end.

(** The world after [n] clicks handled with the same argument. *)
Definition clicks (evt : Value) (n : nat) (w : World) : World :=
  Nat.iter n (exec (handleClick evt)) w.

(** [m] relates every world to the world it leaves, whether it returns or
    throws. *)
Definition keeps (R : World -> World -> Prop) {A} (m : M A) : Prop :=
  forall w, R w (exec m w).

(** What the fetching code may do: it sends requests, each one logged with
    the page as it stands, and leaves the page, the elements and the
    [categories] variable alone. *)
Definition fetch_step (w w' : World) : Prop :=
  dom w' = dom w /\ categories w' = categories w /\ page w' = page w /\
  network w' = network w /\ entropy w' = entropy w /\
  exists new, sent w' = (sent w ++ new)%list /\
              Forall (fun r => dom_then r = dom w) new.

(** What the code that builds and updates elements may do: no request is
    sent, and no clue, category or selector changes. *)
Definition render_step (w w' : World) : Prop :=
  sent w' = sent w /\ heap w' = heap w /\ categories w' = categories w /\
  page w' = page w /\ length (dom w) <= length (dom w').

(** The first two statements of [fillTable] and of [setupAndStart]: the
    sample of identifiers, then the categories. *)
Definition fetchCategories : M (list Category) :=
  categoryIds <- getCategoryIds;
  Promise_all (map getCategory categoryIds).

(** The statements of [fillTable] that follow the assignment to
    [categories]. *)
Definition buildGrid : M unit :=
  r <- querySelector jeopardyTable;
  table <- deref r;
  thead <- createTHead table;
  headerRow <- insertRow thead;
  cs <- gets categories;
  forEach
    (fun category =>
       headerCell <- createElement "th";
       setTextContent headerCell (title category);;
       appendChild headerRow headerCell)
    cs;;
  tbody <- createTBody table;
  times NUM_CLUES_PER_CAT
    (bodyRow <- insertRow tbody;
     cs <- gets categories;
     forEach
       (fun category =>
          bodyCell <- insertCell bodyRow;
          questionCell <- createElement "span";
          setTextContent questionCell (JStr "?");;
          appendChild bodyCell questionCell)
       cs).

(** The fetches of [fillTable] fail when the request for the identifiers
    fails, or when one of the promises of [getCategory] is rejected. *)
Definition fetch_failure (w : World) : Prop :=
  is_ok (eval getCategoryIds w) = false \/
  exists ids rs,
    eval getCategoryIds w = Ok ids /\
    eval (settle_all (map getCategory ids)) (exec getCategoryIds w) = Ok rs /\
    Exists (fun r => is_ok r = false) rs.

(** Whether a selector of the script finds an element in the page. *)
Definition found (sel : Page -> option addr) (w : World) : Prop :=
  exists a e, sel (page w) = Some a /\ dom w !! a = Some e.

(** The fetch button as the user sees it: disabled or not, and its label. *)
Definition button_state (w : World) : option (bool * string) :=
  match fetchDataButton (page w) with
  | Some b =>
      match dom w !! b with
      | Some e => Some (disabled e, displayed (dom w) b)
      | None => None
      end
  | None => None
  end.

(** The loading view is out of sight in the elements [d] of a page: the
    spinner is not displayed and the button is enabled and reads
    "Fetch Data". *)
Definition loading_view_hidden (p : Page) (d : list Element) : Prop :=
  exists s b es eb,
    loadingSpinner p = Some s /\ d !! s = Some es /\ display es = "none" /\
    fetchDataButton p = Some b /\ d !! b = Some eb /\
    disabled eb = false /\ displayed d b = "Fetch Data".

(** From [w] to [w'] requests were sent, if any, only while the elements of
    the page satisfied [P]. *)
Definition sends (P : list Element -> Prop) (w w' : World) : Prop :=
  exists new, sent w' = (sent w ++ new)%list /\
              Forall (fun r => P (dom_then r)) new.

(** No request is sent from [w] to [w']. *)
Definition quiet (w w' : World) : Prop := sent w' = sent w.

Definition ids_url : string := BASE_API_URL +:+ "categories?count=100".

Definition clues_url (id : string) : string :=
  BASE_API_URL +:+ "categories/" +:+ id +:+ "/clues".

(** The addresses [getCategory] is asked for a list of identifiers; an
    identifier that cannot be written into the address gives none. *)
Definition category_urls (ids : list JsVal) : list string :=
  flat_map (fun catId => match ToString catId with
                         | Ok id => [clues_url id]
                         | Throw _ => []
                         end) ids.

(** The addresses requested so far, oldest first. *)
Definition urls (w : World) : list string := map url (sent w).

Definition failure : Error := ErrorMsg "Failed to retrieve category data".

Definition nullish (v : JsVal) : bool :=
  match v with JUndefined | JNull => true | _ => false end.

(** The value of a property that can be read. *)
Definition prop (v : JsVal) (name : string) : JsVal :=
  match getProp v name with Ok x => x | Throw _ => JUndefined end.

(** The clue list of a response, when it has one. *)
Definition clue_items (data : JsVal) : option (list JsVal) :=
  match getProp data "clues" with
  | Ok (JArr items) => Some items
  | _ => None
  end.

(** The shape [getCategory] needs of a response: something that has
    properties, whose [clues] is an array, no item of which is [null] or
    [undefined]. *)
Definition well_shaped (data : JsVal) : bool :=
  match clue_items data with
  | Some items => forallb (fun item => negb (nullish item)) items
  | None => false
  end.

(** What the remote call of [getCategory] yields: the data of the response,
    or an exception when the identifier cannot be written into the address
    or the request fails. *)
Definition response (w : World) (catId : JsVal) : Result JsVal :=
  match ToString catId with
  | Ok id =>
      match network w (length (sent w)) (clues_url id) with
      | Resolved data => Ok data
      | Rejected => Throw NetworkError
      end
  | Throw e => Throw e
  end.

(** The clue record made from an item of a response. *)
Definition clue_of (item : JsVal) : Clue :=
  {| question := prop item "question"; answer := prop item "answer";
     showing := JNull |}.

(** From [w] to [w'] nothing has changed but the console, which has
    received TypeErrors only. *)
Definition only_console (w w' : World) : Prop :=
  heap w' = heap w /\ dom w' = dom w /\ categories w' = categories w /\
  page w' = page w /\ sent w' = sent w /\
  exists k, console w' = (console w ++ replicate k TypeError)%list.

(** What makes an element a clue cell for the script: the class, the clue
    record, a click listener. *)
Definition same_marks (e e' : Element) : Prop :=
  className e' = className e /\ clue e' = clue e /\
  clickListeners e' = clickListeners e.

Definition unmarked (e : Element) : Prop :=
  className e = [] /\ clue e = None /\ clickListeners e = 0.

(** From [w] to [w'] the elements that were there have kept their marks and
    the elements that have been created have none. *)
Definition plain_growth (w w' : World) : Prop :=
  length (dom w) <= length (dom w') /\
  forall a e', dom w' !! a = Some e' ->
               match dom w !! a with
               | Some e => same_marks e e'
               | None => unmarked e'
               end.

(** ** The board as a tree *)

Inductive Tree : Type :=
| TText (s : string)
| TElem (tag : string) (kids : list Tree).

(** The tree of elements and texts below the element at [a], read off the
    elements [d] down to the depth [fuel]. *)
Fixpoint subtree (fuel : nat) (d : list Element) (a : addr) : Tree :=
  match fuel with
  | 0 => TElem EmptyString []
  | S fuel' =>
      match d !! a with
      | Some e =>
          TElem (tagName e)
                (map (fun c => match c with
                               | TextNode s => TText s
                               | ElemNode b => subtree fuel' d b
                               end) (childNodes e))
      | None => TElem EmptyString []
      end
  end.

Definition text_trees (s : string) : list Tree :=
  if String.eqb s EmptyString then [] else [TText s].

(** A header cell showing [s], and a placeholder cell of the body. *)
Definition header_cell (s : string) : Tree := TElem "th" (text_trees s).
Definition body_cell : Tree := TElem "td" [TElem "span" [TText "?"]].

(** The board for a list of titles: a head with one row of header cells,
    then a body of NUM_CLUES_PER_CAT rows of placeholder cells, one cell
    for each title in every row. *)
Definition grid (titles : list string) : list Tree :=
  [TElem "thead" [TElem "tr" (map header_cell titles)];
   TElem "tbody"
     (replicate NUM_CLUES_PER_CAT
                (TElem "tr" (map (fun _ => body_cell) titles)))].

(** Elements as [fillTable] leaves them: a cell holding a text, a cell
    holding one element, a row or section holding elements. *)
Definition leaf (tag s : string) : Element :=
  set_childNodes (text_nodes s) (fresh_element tag).

Definition holder (tag : string) (kids : list addr) : Element :=
  set_childNodes (map ElemNode kids) (fresh_element tag).

Definition add_kids (kids : list addr) (e : Element) : Element :=
  set_childNodes (childNodes e ++ map ElemNode kids)%list e.

(** The addresses of [k] cells made one after the other from [n] on, each
    cell taking two addresses (the cell, then its span). *)
Fixpoint cell_addrs (n k : nat) : list addr :=
  match k with
  | 0 => []
  | S k' => n :: cell_addrs (S (S n)) k'
  end.

(** The addresses of [c] rows of [k] cells made one after the other from
    [n] on. *)
Fixpoint row_addrs (n k c : nat) : list addr :=
  match c with
  | 0 => []
  | S c' => n :: row_addrs (S n + 2 * k) k c'
  end.

Definition cell_at (d : list Element) (a : addr) : Prop :=
  d !! a = Some (holder "td" [S a]) /\ d !! S a = Some (leaf "span" "?").

Definition row_at (k : nat) (d : list Element) (a : addr) : Prop :=
  d !! a = Some (holder "tr" (cell_addrs (S a) k)) /\
  Forall (cell_at d) (cell_addrs (S a) k).

(** ** Sample worlds *)

Definition sample_element (tag : string) (classes : list string) : Element :=
  {| tagName := tag; className := classes; target := None; clue := None;
     clickListeners := 0; display := EmptyString; disabled := false; childNodes := [] |}.

(** A page with the table, the spinner and the button, and a heading of
    class "clue". *)
Definition sample_dom : list Element :=
  [sample_element "table" []; sample_element "div" ["loading-spinner"];
   sample_element "button" []; sample_element "h1" ["clue"]].

Definition sample_page : Page :=
  {| jeopardyTable := Some 0; loadingSpinner := Some 1; fetchDataButton := Some 2 |}.

Definition sample_item (q a : string) : JsVal :=
  JObj [("question", JStr q); ("answer", JStr a)].

(** A service with eight categories, each of five clues. *)
Definition sample_pool : list JsVal :=
  map (fun id => JObj [("id", JNum id)])
      ["11"; "12"; "13"; "14"; "15"; "16"; "17"; "18"].

Definition sample_category : JsVal :=
  JObj [("title", JStr "Math");
        ("clues", JArr [sample_item "1+1" "2"; sample_item "2+2" "4";
                        sample_item "3+3" "6"; sample_item "4+4" "8";
                        sample_item "5+5" "10"])].

Definition sample_network (k : nat) (u : string) : Response :=
  if String.eqb u ids_url then Resolved (JArr sample_pool)
  else Resolved sample_category.

Definition world_with (net : nat -> string -> Response) : World :=
  {| heap := []; dom := sample_dom; page := sample_page; categories := [];
     console := []; sent := []; drawn := 0; network := net;
     entropy := fun k => 3 * k + 1 |}.

Definition sample_world : World := world_with sample_network.

(** A service that is down. *)
Definition down_world : World := world_with (fun _ _ => Rejected).

(** A service that lists its categories and then fails on each of them. *)
Definition flaky_world : World :=
  world_with (fun _ u => if String.eqb u ids_url then Resolved (JArr sample_pool)
                         else Rejected).

(** A service whose category has two clues only. *)
Definition short_category : JsVal :=
  JObj [("title", JStr "Math");
        ("clues", JArr [sample_item "1+1" "2"; sample_item "2+2" "4"])].

Definition short_world : World := world_with (fun _ _ => Resolved short_category).

(** A service whose pool is two entries with the same identifier. *)
Definition twin_pool : list JsVal :=
  [JObj [("id", JNum "7")]; JObj [("id", JNum "7")]].

Definition twin_world : World := world_with (fun _ _ => Resolved (JArr twin_pool)).

(** A cell that carries a hidden clue, as [handleClick] expects it. *)
Definition sample_clue : Clue :=
  {| question := JStr "2+2"; answer := JNum "4"; showing := JNull |}.

Definition clue_cell : Element :=
  {| tagName := "td"; className := ["clue"]; target := None; clue := Some 0;
     clickListeners := 0; display := EmptyString; disabled := false;
     childNodes := [TextNode "?"] |}.

Definition clue_world : World :=
  {| heap := [sample_clue]; dom := [clue_cell]; page := mkPage None None None;
     categories := []; console := []; sent := []; drawn := 0;
     network := fun _ _ => Rejected; entropy := fun _ => 0 |}.

(** The sample world once the loading view has been shown and hidden, and
    what a round of fetches then brings. *)
Definition ready_world : World :=
  exec hideLoadingView (exec showLoadingView sample_world).

Definition sample_categories : list Category :=
  Eval vm_compute in
    match eval fetchCategories ready_world with
    | Ok cats => cats
    | Throw _ => []
    end.

Definition sample_titles : list string :=
  ["Math"; "Math"; "Math"; "Math"; "Math"; "Math"].

(** The button at [b] has in [w'] the flag and the content it has in [w]. *)
Definition button_untouched (b : addr) (w w' : World) : Prop :=
  (disabled <$> dom w' !! b) = (disabled <$> dom w !! b) /\
  (childNodes <$> dom w' !! b) = (childNodes <$> dom w !! b).

(** ** Further observations *)

(** A component of the world is in [w'] what it is in [w]. *)
Definition same {A} (f : World -> A) (w w' : World) : Prop := f w' = f w.

(** The clue records of [w] are all in [w'], where they were and as they
    were; [w'] may hold more. *)
Definition heap_grows (w w' : World) : Prop :=
  exists new, heap w' = (heap w ++ new)%list.

(** The text an error of the model stands for is of no concern here; what
    matters is which error it is.  The list of all clue addresses of a list
    of categories, in order. *)
Definition all_clues (cats : list Category) : list addr :=
  concat (map clues cats).

(** The shape [getCategoryIds] needs of a response: an array, no entry of
    which is [null] or [undefined]. *)
Definition well_formed_pool (data : JsVal) : bool :=
  match data with
  | JArr entries => forallb (fun c => negb (nullish c)) entries
  | _ => false
  end.

Definition pool_size (data : JsVal) : nat :=
  match data with
  | JArr entries => length entries
  | _ => 0
  end.

(** The element at [t] is in [d] an empty element of the tag [tag]. *)
Definition empty_at (tag : string) (t : addr) (d : list Element) : Prop :=
  exists e, d !! t = Some e /\ childNodes e = [] /\ tagName e = tag.

(** The address [a] is none of those the selectors of the page resolve
    to. *)
Definition unselected (p : Page) (a : addr) : Prop :=
  jeopardyTable p <> Some a /\ loadingSpinner p <> Some a /\
  fetchDataButton p <> Some a.

(** ** More sample worlds *)

(** The sample world holding the clue of an earlier game, answer shown. *)
Definition replay_world : World :=
  set_heap (fun _ => [mkClue (JStr "2+2") (JNum "4") (JStr "answer")]) sample_world.

(** Two cells that carry the same hidden clue. *)
Definition shared_world : World :=
  {| heap := [sample_clue]; dom := [clue_cell; clue_cell];
     page := mkPage None None None;
     categories := []; console := []; sent := []; drawn := 0;
     network := fun _ _ => Rejected; entropy := fun _ => 0 |}.

(** The sample world after a game, its table holding a board. *)
Definition played_world : World := exec startGame sample_world.

Definition played_table : Element :=
  Eval vm_compute in
    match dom played_world !! 0 with
    | Some e => e
    | None => fresh_element "table"
    end.




(** The sample page without its table. *)
Definition tableless_world : World :=
  {| heap := []; dom := sample_dom;
     page := {| jeopardyTable := None; loadingSpinner := Some 1;
                fetchDataButton := Some 2 |};
     categories := []; console := []; sent := []; drawn := 0;
     network := sample_network; entropy := fun k => 3 * k + 1 |}.

Definition tableless_categories : list Category :=
  Eval vm_compute in
    match eval fetchCategories tableless_world with
    | Ok cats => cats
    | Throw _ => []
    end.

(** * Properties *)

(** ** Running the code *)

Lemma concat_text_nodes (s : string) :
  String.concat EmptyString (map (fun c => match c with
                                  | TextNode s => s
                                  | ElemNode _ => EmptyString
                                  end) (text_nodes s)) = s.
Proof.
  unfold text_nodes. destruct (String.eqb_spec s EmptyString); subst; reflexivity.
Qed.

Lemma displayed_text_nodes (d : list Element) (a : addr) (e : Element) (s : string) :
  d !! a = Some e -> childNodes e = text_nodes s -> displayed d a = s.
Proof.
  intros Hd Hk. unfold displayed. cbn [textContent]. rewrite Hd, Hk.
  unfold text_nodes. destruct (String.eqb_spec s EmptyString); subst; reflexivity.
Qed.

Lemma stage_question : stage (JStr "question") = 1.
Proof. reflexivity. Qed.

(** One call of [handleClick] on an event whose target carries a hidden
    clue. *)
Lemma handleClick_hidden (w : World) (e : addr) (el : Element) (a : addr) (c : Clue) (q : string) :
  dom w !! e = Some el -> clue el = Some a -> heap w !! a = Some c ->
  showing c = JNull -> ToDOMString (question c) = Ok q ->
  handleClick (VEvent (VElem e)) w =
    (Ok tt,
     set_heap (alter (fun c => mkClue (question c) (answer c) (JStr "question")) a)
       (set_dom (alter (set_childNodes (text_nodes q)) e) w)).
Proof.
  intros He Hc Ha Hs Hq.
  cbv beta iota zeta delta
    [handleClick bind get_target get_clue getElement ret get_field].
  rewrite He, Hc, Ha, Hs.
  change (is_string "question" (JStr "question")) with true. cbv iota beta delta [is_null].
  rewrite Ha. cbv beta iota zeta delta [put_textContent setTextContent bind lift].
  rewrite Hq. reflexivity.
Qed.

Lemma handleClick_question (w : World) (e : addr) (el : Element) (a : addr) (c : Clue) (s : string) :
  dom w !! e = Some el -> clue el = Some a -> heap w !! a = Some c ->
  showing c = JStr "question" -> ToDOMString (answer c) = Ok s ->
  handleClick (VEvent (VElem e)) w =
    (Ok tt,
     set_heap (alter (fun c => mkClue (question c) (answer c) (JStr "answer")) a)
       (set_dom (alter (set_childNodes (text_nodes s)) e) w)).
Proof.
  intros He Hc Ha Hs Hq.
  cbv beta iota zeta delta
    [handleClick bind get_target get_clue getElement ret get_field].
  rewrite He, Hc, Ha, Hs.
  change (is_string "question" (JStr "question")) with true. cbv iota beta delta [is_null].
  rewrite Ha. cbv beta iota zeta delta [put_textContent setTextContent bind lift].
  rewrite Hq. reflexivity.
Qed.

Lemma handleClick_answer (w : World) (e : addr) (el : Element) (a : addr) (c : Clue) :
  dom w !! e = Some el -> clue el = Some a -> heap w !! a = Some c ->
  showing c = JStr "answer" ->
  handleClick (VEvent (VElem e)) w = (Ok tt, w).
Proof.
  intros He Hc Ha Hs.
  cbv beta iota zeta delta
    [handleClick bind get_target get_clue getElement ret get_field].
  rewrite He, Hc, Ha, Hs. reflexivity.
Qed.

(** Whatever it is handed, [handleClick] leaves the heap as it is or moves
    one clue to a later stage. *)
Lemma handleClick_heap (w : World) (evt : Value) :
  heap (exec (handleClick evt) w) = heap w \/
  exists a c s,
    heap w !! a = Some c /\ stage (showing c) < stage (JStr s) /\
    heap (exec (handleClick evt) w)
    = alter (fun c => mkClue (question c) (answer c) (JStr s)) a (heap w).
Proof.
  unfold exec.
  cbv beta iota zeta delta
    [handleClick bind get_target get_clue getElement ret get_field throw
     put_textContent setTextContent lift put_showing modify update_element].
  destruct evt as [| s | e | t | a]; try (left; reflexivity).
  - destruct (dom w !! e) as [el|]; [|left; reflexivity].
    destruct (target el); left; reflexivity.
  - destruct t as [| s | e | t | a]; try (left; reflexivity).
    destruct (dom w !! e) as [el|] eqn:He; [|left; reflexivity].
    destruct (clue el) as [a|] eqn:Hc; [|left; reflexivity].
    destruct (heap w !! a) as [c|] eqn:Ha; [|left; reflexivity].
    destruct (is_null (showing c)) eqn:Hn.
    + rewrite Ha. destruct (ToDOMString (question c)); [|left; reflexivity].
      right. exists a, c, "question". split; [done|]. split; [|reflexivity].
      destruct (showing c); try discriminate. cbn. lia.
    + destruct (is_string "question" (showing c)) eqn:Hq; [|left; reflexivity].
      rewrite Ha. destruct (ToDOMString (answer c)); [|left; reflexivity].
      right. exists a, c, "answer". split; [done|]. split; [|reflexivity].
      destruct (showing c) as [| | | |s| |]; try discriminate.
      cbn in Hq. cbn [stage]. rewrite Hq. cbn. lia.
Qed.

Lemma handleClick_forward (w : World) (evt : Value) (b : addr) (c : Clue) :
  heap w !! b = Some c ->
  exists c', heap (exec (handleClick evt) w) !! b = Some c' /\
             question c' = question c /\ answer c' = answer c /\
             stage (showing c) <= stage (showing c').
Proof.
  intros Hb. destruct (handleClick_heap w evt) as [-> | (a & c0 & s & Ha & Hlt & ->)].
  - exists c. auto.
  - destruct (decide (a = b)) as [-> | Hne].
    + rewrite list_lookup_alter_eq, Hb. cbn. eexists. split; [reflexivity|].
      cbn. rewrite Ha in Hb. injection Hb as ->. repeat split; try reflexivity.
      cbn in Hlt. lia.
    + rewrite list_lookup_alter_ne by done. exists c. auto.
Qed.

Lemma clicks_S (evt : Value) (n : nat) (w : World) :
  clicks evt (S n) w = exec (handleClick evt) (clicks evt n w).
Proof. reflexivity. Qed.

(** C1.  For a hidden clue carried by the element that is the target of the
    click event (question and answer being printable values): the first
    click shows the question and sets [showing] to "question", the second
    shows the answer and sets [showing] to "answer", every later click
    changes nothing at all, and no call of [handleClick], whatever its
    argument and the state, moves the [showing] of any clue to an earlier
    stage or touches its question or answer. *)
Theorem handleClick_sequence
    (w : World) (e : addr) (el : Element) (a : addr) (c : Clue) (q ans : string) :
  dom w !! e = Some el -> clue el = Some a -> heap w !! a = Some c ->
  showing c = JNull ->
  ToDOMString (question c) = Ok q -> ToDOMString (answer c) = Ok ans ->
  let evt := VEvent (VElem e) in
  (heap (clicks evt 1 w) !! a = Some (mkClue (question c) (answer c) (JStr "question"))
   /\ displayed (dom (clicks evt 1 w)) e = q)
  /\ (heap (clicks evt 2 w) !! a = Some (mkClue (question c) (answer c) (JStr "answer"))
      /\ displayed (dom (clicks evt 2 w)) e = ans)
  /\ (forall n, 2 <= n -> clicks evt n w = clicks evt 2 w)
  /\ (forall (w0 : World) (evt0 : Value) (b : addr) (c0 : Clue),
        heap w0 !! b = Some c0 ->
        exists c1, heap (exec (handleClick evt0) w0) !! b = Some c1 /\
                   question c1 = question c0 /\ answer c1 = answer c0 /\
                   stage (showing c0) <= stage (showing c1)).
Proof.
  intros He Hc Ha Hs Hq Hans evt.
  pose (c1 := mkClue (question c) (answer c) (JStr "question")).
  pose (el1 := set_childNodes (text_nodes q) el).
  assert (H1 : clicks evt 1 w =
               set_heap (alter (fun c => mkClue (question c) (answer c) (JStr "question")) a)
                 (set_dom (alter (set_childNodes (text_nodes q)) e) w)).
  { change (clicks evt 1 w) with (exec (handleClick (VEvent (VElem e))) w).
    unfold exec.
    rewrite (handleClick_hidden w e el a c q) by assumption. reflexivity. }
  assert (Hd1 : dom (clicks evt 1 w) !! e = Some el1).
  { rewrite H1. cbn [dom heap set_heap set_dom]. rewrite list_lookup_alter_eq, He. reflexivity. }
  assert (Hh1 : heap (clicks evt 1 w) !! a = Some c1).
  { rewrite H1. cbn [dom heap set_heap set_dom]. rewrite list_lookup_alter_eq, Ha. reflexivity. }
  pose (el2 := set_childNodes (text_nodes ans) el1).
  assert (H2 : clicks evt 2 w =
               set_heap (alter (fun c => mkClue (question c) (answer c) (JStr "answer")) a)
                 (set_dom (alter (set_childNodes (text_nodes ans)) e) (clicks evt 1 w))).
  { rewrite clicks_S. unfold exec, evt.
    rewrite (handleClick_question (clicks (VEvent (VElem e)) 1 w) e el1 a c1 ans);
      auto. }
  assert (Hd2 : dom (clicks evt 2 w) !! e = Some el2).
  { rewrite H2. cbn [dom heap set_heap set_dom]. rewrite list_lookup_alter_eq, Hd1. reflexivity. }
  assert (Hh2 : heap (clicks evt 2 w) !! a
                = Some (mkClue (question c) (answer c) (JStr "answer"))).
  { rewrite H2. cbn [dom heap set_heap set_dom]. rewrite list_lookup_alter_eq, Hh1. reflexivity. }
  split; [split; [exact Hh1 | exact (displayed_text_nodes _ _ _ _ Hd1 eq_refl)]|].
  split; [split; [exact Hh2 | exact (displayed_text_nodes _ _ _ _ Hd2 eq_refl)]|].
  split.
  - intros n Hn. induction Hn as [|n Hn IH]; [reflexivity|].
    rewrite clicks_S, IH. unfold exec, evt.
    rewrite (handleClick_answer (clicks (VEvent (VElem e)) 2 w) e el2 a _ Hd2 Hc Hh2);
      reflexivity.
  - intros w0 evt0 b c0 Hb. exact (handleClick_forward w0 evt0 b c0 Hb).
Qed.

(** ** Relations kept by the code *)

Section Keeps.
Context (R : World -> World -> Prop) `{!PreOrder R}.

Lemma keeps_ret {A} (a : A) : keeps R (ret a).
Proof. intros w. reflexivity. Qed.

Lemma keeps_throw {A} (e : Error) : keeps R (@throw A e).
Proof. intros w. reflexivity. Qed.

Lemma keeps_lift {A} (r : Result A) : keeps R (lift r).
Proof. intros w. reflexivity. Qed.

Lemma keeps_gets {A} (f : World -> A) : keeps R (gets f).
Proof. intros w. reflexivity. Qed.

Lemma keeps_bind {A B} (m : M A) (k : A -> M B) :
  keeps R m -> (forall a, keeps R (k a)) -> keeps R (bind m k).
Proof.
  intros Hm Hk w. specialize (Hm w). unfold exec, bind in *.
  destruct (m w) as [[a|e] w1]; cbn in *; [|exact Hm].
  etransitivity; [exact Hm|]. apply Hk.
Qed.

Lemma keeps_try_catch {A} (m : M A) (h : Error -> M A) :
  keeps R m -> (forall e, keeps R (h e)) -> keeps R (try_catch m h).
Proof.
  intros Hm Hh w. specialize (Hm w). unfold exec, try_catch in *.
  destruct (m w) as [[a|e] w1]; cbn in *; [exact Hm|].
  etransitivity; [exact Hm|]. apply Hh.
Qed.

Lemma keeps_forEach {A} (f : A -> M unit) (l : list A) :
  (forall x, keeps R (f x)) -> keeps R (forEach f l).
Proof.
  intros Hf. induction l as [|x l IH]; cbn [forEach].
  - apply keeps_ret.
  - apply keeps_bind; auto.
Qed.

Lemma keeps_mapM {A B} (f : A -> M B) (l : list A) :
  (forall x, keeps R (f x)) -> keeps R (mapM f l).
Proof.
  intros Hf. induction l as [|x l IH]; cbn [mapM].
  - apply keeps_ret.
  - apply keeps_bind; [auto|]. intros y. apply keeps_bind; [auto|].
    intros ys. apply keeps_ret.
Qed.

Lemma keeps_array_map {B} (f : JsVal -> M B) (v : JsVal) :
  (forall x, keeps R (f x)) -> keeps R (array_map f v).
Proof.
  intros Hf. destruct v; cbn [array_map]; try apply keeps_throw.
  apply keeps_mapM, Hf.
Qed.

Lemma keeps_times (n : nat) (body : M unit) :
  keeps R body -> keeps R (times n body).
Proof.
  intros Hb. induction n as [|n IH]; cbn [times].
  - apply keeps_ret.
  - apply keeps_bind; auto.
Qed.

Lemma keeps_settle_all {A} (ps : list (M A)) :
  Forall (keeps R) ps -> keeps R (settle_all ps).
Proof.
  induction 1 as [|p ps Hp _ IH]; cbn [settle_all].
  - apply keeps_ret.
  - intros w. specialize (Hp w). specialize (IH (exec p w)).
    unfold exec in *. destruct (p w) as [r w1]. cbn in *.
    destruct (settle_all ps w1) as [[l|e] w2]; cbn in *;
      etransitivity; eauto.
Qed.

Lemma keeps_Promise_all {A} (ps : list (M A)) :
  Forall (keeps R) ps -> keeps R (Promise_all ps).
Proof.
  intros H. apply keeps_bind; [apply keeps_settle_all, H|].
  intros rs. apply keeps_lift.
Qed.

Lemma keeps_modify (f : World -> World) :
  (forall w, R w (f w)) -> keeps R (modify f).
Proof. intros Hf w. apply Hf. Qed.

Lemma keeps_deref (r : option addr) : keeps R (deref r).
Proof. destruct r; [apply keeps_ret | apply keeps_throw]. Qed.

Lemma keeps_querySelector (sel : Page -> option addr) : keeps R (querySelector sel).
Proof. apply keeps_gets. Qed.

Lemma keeps_getElement (a : addr) : keeps R (getElement a).
Proof.
  intros w. unfold exec, getElement. destruct (dom w !! a); reflexivity.
Qed.
End Keeps.

#[local] Instance fetch_step_preorder : PreOrder fetch_step.
Proof.
  split.
  - intros w. unfold fetch_step. repeat split; try reflexivity.
    exists []. split; [symmetry; apply app_nil_r | constructor].
  - intros w1 w2 w3 (Hd & Hc & Hp & Hn & He & new & Hs & Hf)
                    (Hd' & Hc' & Hp' & Hn' & He' & new' & Hs' & Hf').
    unfold fetch_step. repeat split; try congruence.
    exists (new ++ new')%list. split.
    + rewrite Hs', Hs. symmetry. apply app_assoc.
    + apply Forall_app. split; [exact Hf|]. rewrite <- Hd. exact Hf'.
Qed.

#[local] Instance render_step_preorder : PreOrder render_step.
Proof.
  split.
  - intros w. unfold render_step. repeat split; reflexivity.
  - intros w1 w2 w3 (Hs & Hh & Hc & Hp & Hl) (Hs' & Hh' & Hc' & Hp' & Hl').
    unfold render_step. repeat split; try congruence. lia.
Qed.

Ltac keeps_step :=
  first
    [ apply keeps_ret; tc_solve | apply keeps_throw; tc_solve
    | apply keeps_lift; tc_solve | apply keeps_gets; tc_solve
    | apply keeps_deref; tc_solve | apply keeps_querySelector; tc_solve
    | apply keeps_getElement; tc_solve
    | apply keeps_bind; [tc_solve | | intros ?]
    | apply keeps_try_catch; [tc_solve | | intros ?]
    | apply keeps_forEach; [tc_solve | intros ?]
    | apply keeps_array_map; [tc_solve | intros ?]
    | apply keeps_times; [tc_solve | ]
    | match goal with
      | |- keeps _ (match ?x with _ => _ end) => destruct x
      end
    | progress unfold appendChild, setTextContent, insertRow, insertCell,
        createTHead, createTBody ].

Create HintDb keeps.
Ltac keeps_auto := repeat (first [ solve [eauto 2 with keeps typeclass_instances] | keeps_step ]).

(** *** The fetching code *)

Lemma axios_get_fetch (u : string) : keeps fetch_step (axios_get u).
Proof.
  intros w. unfold exec, axios_get.
  assert (H : fetch_step w (set_sent (fun l => (l ++ [mkRequest u (dom w)])%list) w)).
  { unfold fetch_step. cbn. repeat split.
    exists [mkRequest u (dom w)]. split; [reflexivity|].
    constructor; [reflexivity | constructor]. }
  destruct (network w (length (sent w)) u); exact H.
Qed.

Lemma baseRandom_fetch (lower upper : nat) : keeps fetch_step (baseRandom lower upper).
Proof.
  intros w. unfold exec, baseRandom, fetch_step. cbn. repeat split.
  exists []. split; [symmetry; apply app_nil_r | constructor].
Qed.

Lemma new_clue_fetch (c : Clue) : keeps fetch_step (new_clue c).
Proof.
  intros w. unfold exec, new_clue, fetch_step. cbn. repeat split.
  exists []. split; [symmetry; apply app_nil_r | constructor].
Qed.

Lemma console_error_fetch (e : Error) : keeps fetch_step (console_error e).
Proof.
  intros w. unfold exec, console_error, modify, fetch_step. cbn. repeat split.
  exists []. split; [symmetry; apply app_nil_r | constructor].
Qed.

#[local] Hint Resolve axios_get_fetch baseRandom_fetch new_clue_fetch
  console_error_fetch : keeps.

Lemma shuffle_from_fetch (steps index : nat) (array : list JsVal) :
  keeps fetch_step (shuffle_from steps index array).
Proof.
  revert index array. induction steps as [|steps IH]; intros index array;
    cbn [shuffle_from]; keeps_auto.
Qed.

#[local] Hint Resolve shuffle_from_fetch : keeps.

Lemma sampleSize_fetch (collection : list JsVal) (n : nat) :
  keeps fetch_step (sampleSize collection n).
Proof. unfold sampleSize, shuffleSelf. keeps_auto. Qed.

#[local] Hint Resolve sampleSize_fetch : keeps.

Lemma getCategoryIds_fetch : keeps fetch_step getCategoryIds.
Proof. unfold getCategoryIds. keeps_auto. Qed.

Lemma getCategory_fetch (catId : JsVal) : keeps fetch_step (getCategory catId).
Proof. unfold getCategory. keeps_auto. Qed.

Lemma fetchCategories_fetch : keeps fetch_step fetchCategories.
Proof.
  unfold fetchCategories. apply keeps_bind; [tc_solve | apply getCategoryIds_fetch |].
  intros ids. apply keeps_Promise_all; [tc_solve|].
  induction ids; constructor; [apply getCategory_fetch | assumption].
Qed.

(** ** Failure of the fetches *)

Lemma fillTable_unfold (w : World) :
  fillTable w =
  try_catch (cats <- fetchCategories; modify (set_categories cats);; buildGrid)
            (fun error => console_error error) w.
Proof.
  unfold fillTable, fetchCategories, buildGrid, try_catch, bind.
  destruct (getCategoryIds w) as [[ids|e] w1]; [|reflexivity].
  destruct (Promise_all (map getCategory ids) w1) as [[cats|e] w2]; reflexivity.
Qed.

Lemma sequence_result_throw {A} (rs : list (Result A)) :
  Exists (fun r => is_ok r = false) rs -> exists e, sequence_result rs = Throw e.
Proof.
  induction 1 as [r rs Hr | r rs _ IH].
  - destruct r; [discriminate|]. eexists. reflexivity.
  - destruct IH as [e He]. cbn. destruct r; [|eexists; reflexivity].
    rewrite He. eexists. reflexivity.
Qed.


Lemma fetch_failure_throws (w : World) :
  fetch_failure w -> exists e, eval fetchCategories w = Throw e.
Proof.
  unfold fetch_failure, eval, exec, fetchCategories, bind.
  destruct (getCategoryIds w) as [[ids|e] w1]; cbn.
  - intros [H | (ids' & rs & Hids & Hrs & Hex)]; [discriminate|].
    injection Hids as <-. unfold Promise_all, bind, lift.
    destruct (settle_all (map getCategory ids) w1) as [rs' w2]. cbn in *.
    subst rs'. destruct (sequence_result_throw rs Hex) as [e He].
    rewrite He. eexists. reflexivity.
  - intros _. eexists. reflexivity.
Qed.

(** A rejected request for the identifiers is such a failure. *)
Lemma ids_rejected_failure (w : World) :
  network w (length (sent w)) ids_url = Rejected -> fetch_failure w.
Proof.
  intros H. left. unfold eval, getCategoryIds. fold ids_url.
  unfold bind at 1, axios_get. rewrite H. reflexivity.
Qed.

(** C5.  When the request for the identifiers fails, or one of the requests
    for a category does, [fillTable] returns having added nothing to the
    page (every element is as it was, so the table has no new header cell
    and no new row) and having left the [categories] variable as it was. *)
Theorem fillTable_fetch_failure (w : World) :
  fetch_failure w ->
  eval fillTable w = Ok tt /\
  dom (exec fillTable w) = dom w /\
  categories (exec fillTable w) = categories w.
Proof.
  intros Hf. destruct (fetch_failure_throws w Hf) as [e He].
  pose proof (fetchCategories_fetch w) as (Hd & Hc & _).
  unfold eval, exec in *. rewrite fillTable_unfold.
  unfold try_catch, bind.
  destruct (fetchCategories w) as [[cats|e'] w1]; cbn in *; [discriminate|].
  repeat split; assumption.
Qed.

(** ** The code that writes to the page *)

Lemma update_element_render (a : addr) (f : Element -> Element) :
  keeps render_step (update_element a f).
Proof.
  intros w. unfold exec, update_element, modify, render_step. cbn.
  rewrite length_alter. auto.
Qed.

Lemma createElement_render (tag : string) : keeps render_step (createElement tag).
Proof.
  intros w. unfold exec, createElement, render_step. cbn.
  rewrite length_app. repeat split; lia.
Qed.

Lemma console_error_render (e : Error) : keeps render_step (console_error e).
Proof. intros w. unfold exec, console_error, modify, render_step. cbn. auto. Qed.

#[local] Hint Resolve update_element_render createElement_render
  console_error_render : keeps.

Lemma setTextContent_render (a : addr) (v : JsVal) :
  keeps render_step (setTextContent a v).
Proof. unfold setTextContent. keeps_auto. Qed.

Lemma appendChild_render (parent child : addr) :
  keeps render_step (appendChild parent child).
Proof. unfold appendChild. keeps_auto. Qed.

#[local] Hint Resolve setTextContent_render appendChild_render : keeps.

Lemma createTHead_render (table : addr) : keeps render_step (createTHead table).
Proof. unfold createTHead. keeps_auto. Qed.

Lemma createTBody_render (table : addr) : keeps render_step (createTBody table).
Proof. unfold createTBody. keeps_auto. Qed.

Lemma insertRow_render (section : addr) : keeps render_step (insertRow section).
Proof. unfold insertRow. keeps_auto. Qed.

Lemma insertCell_render (row : addr) : keeps render_step (insertCell row).
Proof. unfold insertCell. keeps_auto. Qed.

#[local] Hint Resolve createTHead_render createTBody_render insertRow_render
  insertCell_render : keeps.

Lemma buildGrid_render : keeps render_step buildGrid.
Proof. unfold buildGrid. keeps_auto. Qed.

Lemma showLoadingView_render : keeps render_step showLoadingView.
Proof. unfold showLoadingView. keeps_auto. Qed.

Lemma hideLoadingView_render : keeps render_step hideLoadingView.
Proof. unfold hideLoadingView. keeps_auto. Qed.

(** *** The loading view *)

Lemma select_run (sel : Page -> option addr) {A} (k : addr -> M A) (w : World) :
  (r <- querySelector sel; a <- deref r; k a) w =
  match sel (page w) with
  | Some a =>
      match dom w !! a with
      | Some _ => k a w
      | None => (Throw TypeError, w)
      end
  | None => (Throw TypeError, w)
  end.
Proof.
  unfold bind, querySelector, gets, deref.
  destruct (sel (page w)) as [a|]; [|reflexivity].
  destruct (dom w !! a); reflexivity.
Qed.

Lemma update_run (a : addr) (f : Element -> Element) {A} (k : M A) (w : World) :
  (update_element a f;; k) w = k (set_dom (alter f a) w).
Proof. reflexivity. Qed.

Lemma lookup_alter_is_Some (f : Element -> Element) (i j : addr) (d : list Element) :
  is_Some (alter f i d !! j) <-> is_Some (d !! j).
Proof.
  rewrite !lookup_lt_is_Some, length_alter. reflexivity.
Qed.

Lemma hideLoadingView_run (w : World) :
  (found loadingSpinner w /\ found fetchDataButton w /\
   exists s b,
     loadingSpinner (page w) = Some s /\ fetchDataButton (page w) = Some b /\
     hideLoadingView w =
       (Ok tt,
        set_dom (fun d => alter (set_childNodes (text_nodes "Fetch Data")) b
                            (alter (set_disabled false) b
                               (alter (set_display "none") s d))) w))
  \/ ((~ found loadingSpinner w \/ ~ found fetchDataButton w) /\
      exists e, eval hideLoadingView w = Throw e).
Proof.
  unfold hideLoadingView, eval. rewrite select_run.
  destruct (loadingSpinner (page w)) as [s|] eqn:Hs.
  2:{ right. split; [|eexists; reflexivity]. left. intros (a & e & Ha & _).
      congruence. }
  destruct (dom w !! s) as [es|] eqn:Hes.
  2:{ right. split; [|eexists; reflexivity]. left. intros (a & e & Ha & He).
      congruence. }
  rewrite update_run, select_run. cbn [page dom set_dom].
  destruct (fetchDataButton (page w)) as [b|] eqn:Hb.
  2:{ right. split; [|eexists; reflexivity]. right. intros (a & e & Ha & _).
      congruence. }
  destruct (alter (set_display "none") s (dom w) !! b) as [eb'|] eqn:Heb'.
  2:{ right. split; [|eexists; reflexivity]. right. intros (a & e & Ha & He).
      assert (a = b) as -> by congruence.
      assert (is_Some (alter (set_display "none") s (dom w) !! b)) as [x Hx]
        by (apply lookup_alter_is_Some; eauto).
      congruence. }
  left. split; [exists s, es; auto|]. split.
  { assert (is_Some (dom w !! b)) as [eb Heb]
      by (eapply lookup_alter_is_Some; eauto).
    exists b, eb; auto. }
  exists s, b. repeat split. 
Qed.

Lemma found_alter (sel : Page -> option addr) (f : Element -> Element) (i : addr) (w : World) :
  found sel (set_dom (alter f i) w) <-> found sel w.
Proof.
  unfold found. cbn [page dom set_dom]. split.
  - intros (a & e & Ha & He).
    assert (is_Some (dom w !! a)) as [e' He']
      by (eapply lookup_alter_is_Some; eauto).
    eauto.
  - intros (a & e & Ha & He).
    assert (is_Some (alter f i (dom w) !! a)) as [e' He']
      by (apply lookup_alter_is_Some; eauto).
    eauto.
Qed.

Lemma showLoadingView_run (w : World) :
  (found jeopardyTable w /\ found loadingSpinner w /\ found fetchDataButton w /\
   exists t s b,
     jeopardyTable (page w) = Some t /\
     loadingSpinner (page w) = Some s /\ fetchDataButton (page w) = Some b /\
     showLoadingView w =
       (Ok tt,
        set_dom (fun d => alter (set_childNodes (text_nodes "Loading...")) b
                            (alter (set_disabled true) b
                               (alter (set_display "block") s
                                  (alter (set_childNodes []) t d)))) w))
  \/ ((~ found jeopardyTable w \/ ~ found loadingSpinner w \/
       ~ found fetchDataButton w) /\
      exists e, eval showLoadingView w = Throw e).
Proof.
  unfold showLoadingView, eval. rewrite select_run.
  destruct (jeopardyTable (page w)) as [t|] eqn:Ht.
  2:{ right. split; [|eexists; reflexivity]. left. intros (a & e & Ha & _).
      congruence. }
  destruct (dom w !! t) as [et|] eqn:Het.
  2:{ right. split; [|eexists; reflexivity]. left. intros (a & e & Ha & He).
      congruence. }
  rewrite update_run, select_run. cbn [page dom set_dom].
  destruct (loadingSpinner (page w)) as [s|] eqn:Hs.
  2:{ right. split; [|eexists; reflexivity]. right. left.
      intros (a & e & Ha & _). congruence. }
  destruct (alter (set_childNodes []) t (dom w) !! s) as [es'|] eqn:Hes'.
  2:{ right. split; [|eexists; reflexivity]. right. left.
      intros (a & e & Ha & He). assert (a = s) as -> by congruence.
      assert (is_Some (alter (set_childNodes []) t (dom w) !! s)) as [x Hx]
        by (apply lookup_alter_is_Some; eauto).
      congruence. }
  assert (is_Some (dom w !! s)) as [es Hes]
    by (eapply lookup_alter_is_Some; eauto).
  rewrite update_run, select_run. cbn [page dom set_dom].
  destruct (fetchDataButton (page w)) as [b|] eqn:Hb.
  2:{ right. split; [|eexists; reflexivity]. right. right.
      intros (a & e & Ha & _). congruence. }
  destruct (alter (set_display "block") s (alter (set_childNodes []) t (dom w)) !! b)
    as [eb'|] eqn:Heb'.
  2:{ right. split; [|eexists; reflexivity]. right. right.
      intros (a & e & Ha & He). assert (a = b) as -> by congruence.
      assert (is_Some (alter (set_display "block") s
                         (alter (set_childNodes []) t (dom w)) !! b)) as [x Hx]
        by (do 2 apply lookup_alter_is_Some; eauto).
      congruence. }
  assert (is_Some (dom w !! b)) as [eb Heb].
  { apply (proj1 (lookup_alter_is_Some (set_childNodes []) t b (dom w))).
    apply (proj1 (lookup_alter_is_Some (set_display "block") s b _)).
    rewrite Heb'. eauto. }
  left. split; [exists t, et; auto|]. split; [exists s, es; auto|].
  split; [exists b, eb; auto|].
  exists t, s, b. repeat split.
Qed.

Lemma button_state_written (w : World) (b : addr) (flag : bool) (label : string)
    (d : list Element) :
  fetchDataButton (page w) = Some b -> is_Some (d !! b) ->
  button_state
    (set_dom (fun _ => alter (set_childNodes (text_nodes label)) b
                         (alter (set_disabled flag) b d)) w)
  = Some (flag, label).
Proof.
  intros Hb [e He]. unfold button_state. cbn [page dom set_dom]. rewrite Hb.
  assert (Hl : alter (set_childNodes (text_nodes label)) b
                 (alter (set_disabled flag) b d) !! b
               = Some (set_childNodes (text_nodes label) (set_disabled flag e))).
  { rewrite !list_lookup_alter_eq, He. reflexivity. }
  rewrite Hl. cbn [disabled set_childNodes set_disabled].
  rewrite (displayed_text_nodes _ _ _ label Hl eq_refl). reflexivity.
Qed.

Lemma untouched_refl (b : addr) (w : World) : button_untouched b w w.
Proof. split; reflexivity. Qed.

Lemma untouched_display (b s : addr) (v : string) (w w' : World) :
  button_untouched b w w' ->
  button_untouched b w (set_dom (alter (set_display v) s) w').
Proof.
  intros [Hd Hk]. unfold button_untouched. cbn [dom set_dom].
  destruct (decide (s = b)) as [-> | Hne].
  - rewrite list_lookup_alter_eq, <- Hd, <- Hk.
    destruct (dom w' !! b); split; reflexivity.
  - rewrite list_lookup_alter_ne by assumption. split; assumption.
Qed.

Lemma untouched_other (b t : addr) (f : Element -> Element) (w w' : World) :
  t <> b -> button_untouched b w w' ->
  button_untouched b w (set_dom (alter f t) w').
Proof.
  intros Hne [Hd Hk]. unfold button_untouched. cbn [dom set_dom].
  rewrite list_lookup_alter_ne by assumption. split; assumption.
Qed.

Lemma showLoadingView_throw (w : World) (e : Error) (b : addr) :
  eval showLoadingView w = Throw e ->
  jeopardyTable (page w) <> Some b ->
  button_untouched b w (exec showLoadingView w).
Proof.
  unfold showLoadingView, eval, exec. rewrite select_run.
  destruct (jeopardyTable (page w)) as [t|] eqn:Ht; [|intros; apply untouched_refl].
  destruct (dom w !! t) as [et|]; [|intros; apply untouched_refl].
  rewrite update_run, select_run. cbn [page dom set_dom].
  intros Hthrow Hne.
  assert (H1 : button_untouched b w (set_dom (alter (set_childNodes []) t) w))
    by (apply untouched_other; [congruence | apply untouched_refl]).
  destruct (loadingSpinner (page w)) as [s|]; [|exact H1].
  destruct (alter (set_childNodes []) t (dom w) !! s); [|exact H1].
  rewrite update_run, select_run in *. cbn [page dom set_dom] in *.
  assert (H2 : button_untouched b w
                 (set_dom (alter (set_display "block") s)
                    (set_dom (alter (set_childNodes []) t) w)))
    by (apply untouched_display; exact H1).
  destruct (fetchDataButton (page w)) as [b'|]; [|exact H2].
  destruct (alter (set_display "block") s (alter (set_childNodes []) t (dom w)) !! b');
    [|exact H2].
  discriminate.
Qed.

Lemma hideLoadingView_throw (w : World) (e : Error) (b : addr) :
  eval hideLoadingView w = Throw e ->
  button_untouched b w (exec hideLoadingView w).
Proof.
  unfold hideLoadingView, eval, exec. rewrite select_run.
  destruct (loadingSpinner (page w)) as [s|]; [|intros; apply untouched_refl].
  destruct (dom w !! s); [|intros; apply untouched_refl].
  rewrite update_run, select_run. cbn [page dom set_dom].
  intros Hthrow.
  assert (H1 : button_untouched b w (set_dom (alter (set_display "none") s) w))
    by (apply untouched_display, untouched_refl).
  destruct (fetchDataButton (page w)) as [b'|]; [|exact H1].
  destruct (alter (set_display "none") s (dom w) !! b'); [|exact H1].
  discriminate.
Qed.

(** C9.  [showLoadingView] completes on every page that has the table, the
    spinner and the button, [hideLoadingView] on every page that has the
    spinner and the button; whenever [showLoadingView] completes the button
    is disabled and reads "Loading...", whenever [hideLoadingView]
    completes it is enabled and reads "Fetch Data"; and when either of
    them throws, the flag and the content of the button are what they
    were (the table, which [showLoadingView] empties, not being the
    button). *)
Theorem loading_view_button (w : World) :
  (found jeopardyTable w -> found loadingSpinner w -> found fetchDataButton w ->
   eval showLoadingView w = Ok tt)
  /\ (found loadingSpinner w -> found fetchDataButton w ->
      eval hideLoadingView w = Ok tt)
  /\ (eval showLoadingView w = Ok tt ->
      button_state (exec showLoadingView w) = Some (true, "Loading..."))
  /\ (eval hideLoadingView w = Ok tt ->
      button_state (exec hideLoadingView w) = Some (false, "Fetch Data"))
  /\ (forall e b, eval showLoadingView w = Throw e ->
                  jeopardyTable (page w) <> Some b ->
                  button_untouched b w (exec showLoadingView w))
  /\ (forall e b, eval hideLoadingView w = Throw e ->
                  button_untouched b w (exec hideLoadingView w)).
Proof.
  split; [|split; [|split; [|split; [|split]]]].
  - intros Ft Fs Fb.
    destruct (showLoadingView_run w)
      as [(_ & _ & _ & t & s & b & _ & _ & _ & Hrun) | (Hnot & _)];
      [unfold eval; rewrite Hrun; reflexivity | tauto].
  - intros Fs Fb.
    destruct (hideLoadingView_run w)
      as [(_ & _ & s & b & _ & _ & Hrun) | (Hnot & _)];
      [unfold eval; rewrite Hrun; reflexivity | tauto].
  - intros Hok.
    destruct (showLoadingView_run w)
      as [(_ & _ & Fb & t & s & b & _ & _ & Hb & Hrun) | (_ & e & He)];
      [|congruence].
    unfold exec. rewrite Hrun. cbn [snd].
    apply (button_state_written w b true "Loading..."); [assumption|].
    destruct Fb as (b' & eb & Hb' & Heb).
    assert (b' = b) as -> by congruence.
    do 2 apply lookup_alter_is_Some. eauto.
  - intros Hok.
    destruct (hideLoadingView_run w)
      as [(_ & Fb & s & b & _ & Hb & Hrun) | (_ & e & He)];
      [|congruence].
    unfold exec. rewrite Hrun. cbn [snd].
    apply (button_state_written w b false "Fetch Data"); [assumption|].
    destruct Fb as (b' & eb & Hb' & Heb).
    assert (b' = b) as -> by congruence.
    apply lookup_alter_is_Some. eauto.
  - intros e b. apply showLoadingView_throw.
  - intros e b. apply hideLoadingView_throw.
Qed.

(** ** The requests of a game start *)

Lemma sends_refl (P : list Element -> Prop) (w : World) : sends P w w.
Proof. exists []. split; [symmetry; apply app_nil_r | constructor]. Qed.

Lemma sends_trans (P : list Element -> Prop) (w1 w2 w3 : World) :
  sends P w1 w2 -> sends P w2 w3 -> sends P w1 w3.
Proof.
  intros (n1 & H1 & F1) (n2 & H2 & F2). exists (n1 ++ n2)%list. split.
  - rewrite H2, H1. symmetry. apply app_assoc.
  - apply Forall_app. auto.
Qed.

Lemma render_sends (P : list Element -> Prop) (w w' : World) :
  render_step w w' -> sends P w w'.
Proof.
  intros (Hs & _). exists []. split; [rewrite Hs; symmetry; apply app_nil_r|].
  constructor.
Qed.

Lemma fetch_sends (P : list Element -> Prop) (w w' : World) :
  fetch_step w w' -> P (dom w) -> sends P w w'.
Proof.
  intros (_ & _ & _ & _ & _ & new & Hs & Hf) HP. exists new. split; [exact Hs|].
  eapply Forall_impl; [exact Hf|]. cbn. intros r ->. exact HP.
Qed.

Lemma setupAndStart_unfold (w : World) :
  setupAndStart w =
  try_catch (hideLoadingView;; cats <- fetchCategories; fillTable)
            (fun error => console_error error) w.
Proof.
  unfold setupAndStart, fetchCategories, try_catch, bind.
  destruct (hideLoadingView w) as [[[]|e] w1]; [|reflexivity].
  destruct (getCategoryIds w1) as [[ids|e] w2]; [|reflexivity].
  destruct (Promise_all (map getCategory ids) w2) as [[cats|e] w3]; reflexivity.
Qed.

Lemma fillTable_sends (P : list Element -> Prop) (w : World) :
  P (dom w) -> sends P w (exec fillTable w).
Proof.
  intros HP. unfold exec. rewrite fillTable_unfold. unfold try_catch, bind.
  pose proof (fetchCategories_fetch w) as Hf. unfold exec in Hf.
  destruct (fetchCategories w) as [[cats|e] w1]; cbn [snd] in *.
  - apply (sends_trans P _ w1); [apply fetch_sends; assumption|].
    pose proof (buildGrid_render (set_categories cats w1)) as Hr.
    unfold exec, modify in *.
    assert (Hs : sends P w1 (snd (buildGrid (set_categories cats w1)))).
    { destruct Hr as (Hs & _). exists []. split; [|constructor].
      rewrite Hs. cbn. symmetry. apply app_nil_r. }
    destruct (buildGrid (set_categories cats w1)) as [[[]|e] w2]; cbn [snd] in *;
      [exact Hs|].
    eapply sends_trans; [exact Hs|]. apply render_sends, console_error_render.
  - apply (sends_trans P _ w1); [apply fetch_sends; assumption|].
    apply render_sends, console_error_render.
Qed.

Lemma hideLoadingView_hidden (w : World) :
  eval hideLoadingView w = Ok tt ->
  loading_view_hidden (page w) (dom (exec hideLoadingView w)).
Proof.
  intros Hok.
  destruct (hideLoadingView_run w)
    as [(Fs & Fb & s & b & Hs & Hb & Hrun) | (_ & e & He)]; [|congruence].
  unfold exec. rewrite Hrun. cbn [snd dom set_dom].
  destruct Fs as (s' & es & Hs' & Hes). assert (s' = s) as -> by congruence.
  destruct Fb as (b' & eb & Hb' & Heb). assert (b' = b) as -> by congruence.
  set (d1 := alter (set_display "none") s (dom w)).
  assert (H1 : exists eb1, d1 !! b = Some eb1).
  { apply (proj2 (lookup_alter_is_Some _ s b (dom w))). eauto. }
  destruct H1 as [eb1 Heb1].
  set (d3 := alter _ b (alter _ b d1)).
  assert (Hb3 : d3 !! b
                = Some (set_childNodes (text_nodes "Fetch Data") (set_disabled false eb1))).
  { unfold d3. rewrite !list_lookup_alter_eq, Heb1. reflexivity. }
  assert (Hs3 : exists es3, d3 !! s = Some es3 /\ display es3 = "none").
  { destruct (decide (b = s)) as [-> | Hne].
    - eexists. split; [exact Hb3|]. cbn.
      unfold d1 in Heb1. rewrite list_lookup_alter_eq, Hes in Heb1.
      injection Heb1 as <-. reflexivity.
    - unfold d3. rewrite !list_lookup_alter_ne by assumption.
      unfold d1. rewrite list_lookup_alter_eq, Hes. eexists. split; reflexivity. }
  destruct Hs3 as (es3 & Hes3 & Hdisp).
  exists s, b, es3,
    (set_childNodes (text_nodes "Fetch Data") (set_disabled false eb1)).
  repeat split; try eassumption; try reflexivity.
  exact (displayed_text_nodes _ _ _ _ Hb3 eq_refl).
Qed.

(** C10.  Every request sent in a run of [startGame] is sent after
    [hideLoadingView] has run: the page it is sent from, and which stays so
    while the request is in flight, is the one [hideLoadingView] left right
    after [showLoadingView], with the spinner hidden and the button enabled
    and reading "Fetch Data". *)
Theorem startGame_requests (w : World) :
  sends (fun d => d = dom (exec hideLoadingView (exec showLoadingView w)) /\
                  loading_view_hidden (page w) d)
        w (exec startGame w).
Proof.
  remember (dom (exec hideLoadingView (exec showLoadingView w))) as D eqn:HD.
  unfold exec in *. unfold startGame, bind.
  pose proof (showLoadingView_render w) as Hshow. unfold exec in Hshow.
  destruct (showLoadingView w) as [[[]|e] w1]; cbn [snd] in *;
    [|apply render_sends; exact Hshow].
  apply (sends_trans _ _ w1); [apply render_sends; exact Hshow|].
  rewrite setupAndStart_unfold. unfold try_catch, bind.
  pose proof (hideLoadingView_render w1) as Hhide.
  pose proof (hideLoadingView_hidden w1) as Hhidden.
  unfold exec, eval in *.
  destruct (hideLoadingView w1) as [[[]|e] w2]; cbn [snd fst] in *.
  2:{ apply (sends_trans _ _ w2); [apply render_sends; exact Hhide|].
      apply render_sends, console_error_render. }
  specialize (Hhidden eq_refl).
  assert (Hpage : page w1 = page w) by apply Hshow. rewrite Hpage in Hhidden.
  apply (sends_trans _ _ w2); [apply render_sends; exact Hhide|].
  pose proof (fetchCategories_fetch w2) as Hf. unfold exec in Hf.
  destruct (fetchCategories w2) as [[cats|e] w3]; cbn [snd] in *.
  - apply (sends_trans _ _ w3); [apply fetch_sends; [exact Hf | auto]|].
    assert (Hd : dom w3 = dom w2) by apply Hf.
    pose proof (fillTable_sends
                  (fun d => d = D /\ loading_view_hidden (page w) d) w3) as Hft.
    unfold exec in Hft. rewrite Hd in Hft. specialize (Hft (conj (eq_sym HD) Hhidden)).
    destruct (fillTable w3) as [[[]|e] w4]; cbn [snd] in *; [exact Hft|].
    eapply sends_trans; [exact Hft|]. apply render_sends, console_error_render.
  - apply (sends_trans _ _ w3); [apply fetch_sends; [exact Hf | auto]|].
    apply render_sends, console_error_render.
Qed.

(** ** The two rounds of requests *)

#[local] Instance quiet_preorder : PreOrder quiet.
Proof.
  split.
  - intros w. reflexivity.
  - intros w1 w2 w3 H1 H2. unfold quiet in *. congruence.
Qed.

Lemma baseRandom_quiet (lower upper : nat) : keeps quiet (baseRandom lower upper).
Proof. intros w. reflexivity. Qed.

Lemma new_clue_quiet (c : Clue) : keeps quiet (new_clue c).
Proof. intros w. reflexivity. Qed.

Lemma console_error_quiet (e : Error) : keeps quiet (console_error e).
Proof. intros w. reflexivity. Qed.

#[local] Hint Resolve baseRandom_quiet new_clue_quiet console_error_quiet : keeps.

Lemma shuffle_from_quiet (steps index : nat) (array : list JsVal) :
  keeps quiet (shuffle_from steps index array).
Proof.
  revert index array. induction steps as [|steps IH]; intros index array;
    cbn [shuffle_from]; keeps_auto.
Qed.

#[local] Hint Resolve shuffle_from_quiet : keeps.

Lemma sampleSize_quiet (collection : list JsVal) (n : nat) :
  keeps quiet (sampleSize collection n).
Proof. unfold sampleSize, shuffleSelf. keeps_auto. Qed.

#[local] Hint Resolve sampleSize_quiet : keeps.

Lemma render_quiet (w w' : World) : render_step w w' -> quiet w w'.
Proof. intros (H & _). exact H. Qed.

Lemma axios_get_urls (u : string) (w : World) :
  urls (exec (axios_get u) w) = (urls w ++ [u])%list.
Proof.
  unfold urls, exec, axios_get.
  destruct (network w (length (sent w)) u); cbn; rewrite map_app; reflexivity.
Qed.

Lemma quiet_urls (w w' : World) : quiet w w' -> urls w' = urls w.
Proof. unfold quiet, urls. intros ->. reflexivity. Qed.

Lemma getCategoryIds_urls (w : World) :
  urls (exec getCategoryIds w) = (urls w ++ [ids_url])%list.
Proof.
  pose proof (axios_get_urls ids_url w) as Hu.
  unfold exec, getCategoryIds, bind in *. fold ids_url.
  destruct (axios_get ids_url w) as [[data|e] w1]; cbn [snd] in *; [|exact Hu].
  rewrite <- Hu. apply quiet_urls.
  assert (Hq : keeps quiet
                 (catIds <- array_map (fun category => lift (getProp category "id")) data;
                  sampleSize catIds NUM_CATEGORIES)) by keeps_auto.
  exact (Hq w1).
Qed.

Lemma getCategory_urls (catId : JsVal) (w : World) :
  urls (exec (getCategory catId) w) = (urls w ++ category_urls [catId])%list.
Proof.
  unfold category_urls. cbn [flat_map]. rewrite app_nil_r.
  unfold exec, getCategory, try_catch. unfold bind at 1, lift at 1.
  destruct (ToString catId) as [id|e]; cbn [fst snd].
  - fold (clues_url id). unfold bind at 1.
    pose proof (axios_get_urls (clues_url id) w) as Hu. unfold exec in Hu.
    destruct (axios_get (clues_url id) w) as [[data|e] w1]; cbn [snd] in *.
    + rewrite <- Hu.
      match goal with
      | |- urls (snd (let (r, w') := ?m w1 in _)) = _ =>
          assert (Hq : keeps quiet m) by keeps_auto;
          specialize (Hq w1); unfold exec in Hq;
          destruct (m w1) as [[c|e] w2]; cbn [snd] in *
      end.
      * apply quiet_urls, Hq.
      * apply quiet_urls. etransitivity; [exact Hq|]. reflexivity.
    + rewrite <- Hu. apply quiet_urls. reflexivity.
  - rewrite app_nil_r. apply quiet_urls. reflexivity.
Qed.

Lemma category_urls_cons (catId : JsVal) (ids : list JsVal) :
  category_urls (catId :: ids) = (category_urls [catId] ++ category_urls ids)%list.
Proof. unfold category_urls. cbn [flat_map]. rewrite app_nil_r. reflexivity. Qed.

Lemma settle_all_urls (ids : list JsVal) (w : World) :
  urls (exec (settle_all (map getCategory ids)) w)
  = (urls w ++ category_urls ids)%list.
Proof.
  revert w. induction ids as [|catId ids IH]; intros w.
  - cbn. symmetry. apply app_nil_r.
  - pose proof (getCategory_urls catId w) as H1.
    unfold exec in *. cbn [map settle_all].
    destruct (getCategory catId w) as [r w1]. cbn [snd] in H1.
    specialize (IH w1).
    destruct (settle_all (map getCategory ids) w1) as [[l|e] w2]; cbn [snd] in *;
      rewrite (category_urls_cons catId ids), IH, H1, <- app_assoc; reflexivity.
Qed.

Lemma Promise_all_urls (ids : list JsVal) (w : World) :
  urls (exec (Promise_all (map getCategory ids)) w)
  = (urls w ++ category_urls ids)%list.
Proof.
  pose proof (settle_all_urls ids w) as H.
  unfold exec, Promise_all, bind, lift in *.
  destruct (settle_all (map getCategory ids) w) as [[rs|e] w1]; exact H.
Qed.

Lemma fetchCategories_urls (w : World) :
  urls (exec fetchCategories w)
  = (urls w ++ ids_url :: match eval getCategoryIds w with
                          | Ok ids => category_urls ids
                          | Throw _ => []
                          end)%list.
Proof.
  pose proof (getCategoryIds_urls w) as H1.
  unfold exec, eval, fetchCategories, bind in *.
  destruct (getCategoryIds w) as [[ids|e] w1]; cbn [fst snd] in *.
  - pose proof (Promise_all_urls ids w1) as H2. unfold exec in H2.
    rewrite H2, H1, <- app_assoc. reflexivity.
  - exact H1.
Qed.

Lemma fillTable_returns (w : World) : eval fillTable w = Ok tt.
Proof.
  unfold eval, fillTable, try_catch.
  match goal with |- fst (let (r, w') := ?m in _) = _ => destruct m as [[[]|e] w1] end;
    reflexivity.
Qed.

Lemma fillTable_after_fetch (w : World) :
  quiet (exec fetchCategories w) (exec fillTable w) /\
  forall cats, eval fetchCategories w = Ok cats ->
               categories (exec fillTable w) = cats.
Proof.
  unfold exec, eval. rewrite fillTable_unfold. unfold try_catch, bind.
  destruct (fetchCategories w) as [[cats|e] w1]; cbn [fst snd].
  - pose proof (buildGrid_render (set_categories cats w1)) as Hr.
    unfold exec, modify in *.
    destruct (buildGrid (set_categories cats w1)) as [[[]|e] w2]; cbn [snd] in *.
    + split; [apply Hr|]. intros ? [= <-]. apply Hr.
    + split; [apply Hr|]. intros ? [= <-]. apply Hr.
  - split; [reflexivity|]. intros ? [=].
Qed.

(** C7.  When the requests that [setupAndStart] sends by itself all succeed,
    a game start is one round of requests (the identifiers, then one
    category for each identifier of the first sample) followed by
    [fillTable] run from the world that round has left: [fillTable] takes
    nothing from the first round, sends the request for the identifiers a
    second time and then the requests for the categories of its own
    sample, and the [categories] variable, untouched by the first round,
    receives what the second round has fetched. *)
Theorem startGame_fetches_twice (w : World) (cats1 : list Category) :
  let w0 := exec showLoadingView w in
  let w1 := exec hideLoadingView w0 in
  let w2 := exec fetchCategories w1 in
  eval showLoadingView w = Ok tt -> eval hideLoadingView w0 = Ok tt ->
  eval fetchCategories w1 = Ok cats1 ->
  startGame w = fillTable w2
  /\ (exists ids1, eval getCategoryIds w1 = Ok ids1 /\
                   urls w2 = (urls w ++ ids_url :: category_urls ids1)%list)
  /\ urls (exec startGame w)
     = (urls w2 ++ ids_url :: match eval getCategoryIds w2 with
                              | Ok ids2 => category_urls ids2
                              | Throw _ => []
                              end)%list
  /\ categories w2 = categories w
  /\ (forall cats2, eval fetchCategories w2 = Ok cats2 ->
                    categories (exec startGame w) = cats2).
Proof.
  intros w0 w1 w2 Hshow Hhide Hfetch.
  assert (Hrun : startGame w = fillTable w2).
  { unfold startGame, bind. subst w0 w1 w2. unfold exec, eval in *.
    destruct (showLoadingView w) as [[[]|e] v0]; cbn [fst snd] in *; [|discriminate].
    rewrite setupAndStart_unfold. unfold try_catch, bind.
    destruct (hideLoadingView v0) as [[[]|e] v1]; cbn [fst snd] in *; [|discriminate].
    destruct (fetchCategories v1) as [[cats|e] v2]; cbn [fst snd] in *; [|discriminate].
    pose proof (fillTable_returns v2) as Hr. unfold eval in Hr.
    destruct (fillTable v2) as [[[]|e] v3]; cbn [fst] in *; [reflexivity|discriminate]. }
  assert (Hu0 : urls w1 = urls w).
  { transitivity (urls w0); apply quiet_urls, render_quiet;
      [apply hideLoadingView_render | apply showLoadingView_render]. }
  split; [exact Hrun|]. split; [|split; [|split]].
  - pose proof (fetchCategories_urls w1) as Hu. fold w2 in Hu.
    unfold eval, fetchCategories, bind in Hfetch.
    unfold eval in Hu.
    destruct (getCategoryIds w1) as [[ids|e] v] eqn:E; cbn [fst snd] in *;
      [|discriminate].
    exists ids. split; [unfold eval; rewrite E; reflexivity|].
    rewrite Hu, Hu0. reflexivity.
  - unfold exec at 1. rewrite Hrun. fold (exec fillTable w2).
    rewrite (quiet_urls _ _ (proj1 (fillTable_after_fetch w2))).
    apply fetchCategories_urls.
  - transitivity (categories w1); [apply (fetchCategories_fetch w1)|].
    transitivity (categories w0);
      [apply (hideLoadingView_render w0) | apply (showLoadingView_render w)].
  - intros cats2 H2. unfold exec at 1. rewrite Hrun.
    apply (proj2 (fillTable_after_fetch w2)), H2.
Qed.

(** ** One category *)

Lemma clues_mapM_ok (items : list JsVal) (w : World) :
  forallb (fun item => negb (nullish item)) items = true ->
  mapM (fun clue =>
          q <- lift (getProp clue "question");
          a <- lift (getProp clue "answer");
          new_clue {| question := q; answer := a; showing := JNull |}) items w
  = (Ok (seq (length (heap w)) (length items)),
     set_heap (fun h => (h ++ map clue_of items)%list) w).
Proof.
  revert w. induction items as [|item items IH]; intros w Hall.
  - cbn. unfold ret, set_heap. rewrite app_nil_r. destruct w; reflexivity.
  - cbn [forallb] in Hall. apply andb_prop in Hall as [Hitem Hall].
    cbn [mapM]. unfold bind at 1.
    assert (H1 : (q <- lift (getProp item "question");
                  a <- lift (getProp item "answer");
                  new_clue {| question := q; answer := a; showing := JNull |}) w
                 = (Ok (length (heap w)),
                    set_heap (fun h => (h ++ [clue_of item])%list) w)).
    { unfold bind, lift, new_clue, clue_of, prop.
      destruct item; try discriminate; reflexivity. }
    rewrite H1. unfold bind at 1. rewrite (IH _ Hall).
    unfold ret. cbn [heap set_heap length map seq]. f_equal.
    + rewrite length_app. cbn. f_equal. f_equal. f_equal. lia.
    + unfold set_heap. cbn. rewrite <- app_assoc. reflexivity.
Qed.

Lemma clues_mapM_throw (items : list JsVal) (w : World) :
  forallb (fun item => negb (nullish item)) items = false ->
  eval (mapM (fun clue =>
                q <- lift (getProp clue "question");
                a <- lift (getProp clue "answer");
                new_clue {| question := q; answer := a; showing := JNull |}) items) w
  = Throw TypeError.
Proof.
  revert w. induction items as [|item items IH]; intros w Hall; [discriminate|].
  cbn [forallb] in Hall. unfold eval in *. cbn [mapM]. unfold bind at 1.
  destruct (nullish item) eqn:Hn.
  - destruct item; try discriminate; reflexivity.
  - cbn in Hall.
    assert (H1 : (q <- lift (getProp item "question");
                  a <- lift (getProp item "answer");
                  new_clue {| question := q; answer := a; showing := JNull |}) w
                 = (Ok (length (heap w)),
                    set_heap (fun h => (h ++ [clue_of item])%list) w)).
    { unfold bind, lift, new_clue, clue_of, prop.
      destruct item; try discriminate; reflexivity. }
    rewrite H1. unfold bind at 1.
    specialize (IH (set_heap (fun h => (h ++ [clue_of item])%list) w) Hall).
    destruct (mapM _ items _) as [[l|e] w2]; cbn in *; congruence.
Qed.

(** What a call of [getCategory] returns or throws. *)
Lemma getCategory_eval (catId : JsVal) (w : World) :
  eval (getCategory catId) w =
  match response w catId with
  | Ok data =>
      match clue_items data with
      | Some items =>
          if forallb (fun item => negb (nullish item)) items
          then Ok {| title := prop data "title";
                     clues := seq (length (heap w)) (length items) |}
          else Throw failure
      | None => Throw failure
      end
  | Throw _ => Throw failure
  end.
Proof.
  unfold eval, getCategory, try_catch, response. unfold bind at 1, lift at 1.
  destruct (ToString catId) as [id|e]; [|reflexivity].
  fold (clues_url id). unfold bind at 1, axios_get.
  destruct (network w (length (sent w)) (clues_url id)) as [|data]; [reflexivity|].
  unfold clue_items, prop.
  unfold bind at 1, lift at 1.
  destruct (getProp data "title") as [t|e] eqn:Ht.
  2:{ destruct data; try discriminate; reflexivity. }
  unfold bind at 1, lift at 1.
  destruct (getProp data "clues") as [raw|e] eqn:Hc.
  2:{ destruct data; discriminate. }
  destruct raw as [| | | | |items|]; try reflexivity.
  unfold bind at 1, array_map.
  destruct (forallb (fun item => negb (nullish item)) items) eqn:Hall.
  - rewrite clues_mapM_ok by assumption. reflexivity.
  - match goal with
    | |- context [mapM ?f items ?w1] =>
        pose proof (clues_mapM_throw items w1 Hall) as Hth; unfold eval in Hth;
        destruct (mapM f items w1) as [[l|e] w2]
    end; cbn in *; [discriminate | reflexivity].
Qed.

Lemma getCategory_heap (catId : JsVal) (w : World) (data : JsVal) (items : list JsVal) :
  response w catId = Ok data -> clue_items data = Some items ->
  forallb (fun item => negb (nullish item)) items = true ->
  heap (exec (getCategory catId) w) = (heap w ++ map clue_of items)%list.
Proof.
  unfold exec, getCategory, try_catch, response, clue_items.
  unfold bind at 1, lift at 1.
  destruct (ToString catId) as [id|e]; [|discriminate].
  fold (clues_url id). unfold bind at 1, axios_get.
  destruct (network w (length (sent w)) (clues_url id)) as [|data']; [discriminate|].
  intros [= ->] Hc Hall.
  unfold bind at 1, lift at 1.
  destruct (getProp data "title") as [t|e] eqn:Ht.
  2:{ destruct data; discriminate. }
  unfold bind at 1, lift at 1.
  destruct (getProp data "clues") as [raw|e]; [|discriminate].
  destruct raw as [| | | | |items'|]; try discriminate.
  injection Hc as ->.
  unfold bind at 1, array_map. rewrite clues_mapM_ok by assumption. reflexivity.
Qed.

Lemma fresh_clues_lookup (items : list JsVal) (h : list Clue) :
  Forall2 (fun a item => (h ++ map clue_of items)%list !! a = Some (clue_of item))
          (seq (length h) (length items)) items.
Proof.
  revert h. induction items as [|item items IH]; intros h; cbn [length seq map].
  - constructor.
  - constructor.
    + apply list_lookup_middle. reflexivity.
    + specialize (IH (h ++ [clue_of item])%list).
      rewrite length_app in IH. cbn [length] in IH.
      replace (length h + 1) with (S (length h)) in IH by lia.
      rewrite <- app_assoc in IH. exact IH.
Qed.

(** C8.  [getCategory] throws exactly when its remote call throws (the
    request fails, or cannot even be formed) or the response does not have
    the shape the function reads, and whatever it throws is the one wrapped
    error, "Failed to retrieve category data". *)
Theorem getCategory_throws (w : World) (catId : JsVal) :
  (is_ok (eval (getCategory catId) w) = false <->
   is_ok (response w catId) = false \/
   exists data, response w catId = Ok data /\ well_shaped data = false)
  /\ (forall e, eval (getCategory catId) w = Throw e -> e = failure).
Proof.
  rewrite getCategory_eval. unfold well_shaped.
  destruct (response w catId) as [data|e0]; cbn [is_ok].
  - destruct (clue_items data) as [items|] eqn:Hc.
    + destruct (forallb (fun item => negb (nullish item)) items) eqn:Hall;
        cbn [is_ok].
      * split; [|intros e [=]]. split; [discriminate|].
        intros [[=] | (d & [= <-] & Hd)]. rewrite Hc, Hall in Hd. discriminate.
      * split; [|intros e [= <-]; reflexivity]. split; [|reflexivity].
        intros _. right. exists data. rewrite Hc. auto.
    + split; [|intros e [= <-]; reflexivity]. split; [|reflexivity].
      intros _. right. exists data. rewrite Hc. auto.
  - split; [|intros e [= <-]; reflexivity]. split; auto.
Qed.

(** C3, as the code has it.  A call of [getCategory] that returns gives the
    title of the response together with one clue record for each item of
    the clue list of the response, in the order of the items and whatever
    their number, each with the question and the answer of its item and
    with [showing] set to [null]. *)
Theorem getCategory_returns (w : World) (catId : JsVal) (cat : Category) :
  eval (getCategory catId) w = Ok cat ->
  exists data items,
    response w catId = Ok data /\ clue_items data = Some items /\
    title cat = prop data "title" /\
    length (clues cat) = length items /\
    Forall2 (fun a item =>
               heap (exec (getCategory catId) w) !! a = Some (clue_of item))
            (clues cat) items /\
    Forall (fun a => exists c, heap (exec (getCategory catId) w) !! a = Some c /\
                               showing c = JNull)
           (clues cat).
Proof.
  intros Hok. pose proof (getCategory_eval catId w) as He. rewrite Hok in He.
  destruct (response w catId) as [data|e0] eqn:Hr; [|discriminate].
  destruct (clue_items data) as [items|] eqn:Hc; [|discriminate].
  destruct (forallb (fun item => negb (nullish item)) items) eqn:Hall;
    [|discriminate].
  injection He as ->. exists data, items. cbn [title clues].
  rewrite (getCategory_heap catId w data items Hr Hc Hall).
  pose proof (fresh_clues_lookup items (heap w)) as HF.
  split; [auto|]. split; [auto|]. split; [reflexivity|].
  split; [apply length_seq|]. split; [exact HF|].
  generalize dependent (heap w ++ map clue_of items)%list. intros h HF.
  clear -HF. induction HF as [|a item l l' H _ IH]; constructor;
    [exists (clue_of item); split; [exact H | reflexivity] | exact IH].
Qed.

(** ** The sample of identifiers *)

Lemma insert_head_perm {A} (l : list A) (j : nat) (a y : A) :
  l !! j = Some y -> y :: <[j := a]> l ≡ₚ a :: l.
Proof.
  revert j. induction l as [|b l IH]; intros j Hj; [discriminate|].
  destruct j as [|j]; cbn in *.
  - injection Hj as ->. apply Permutation_swap.
  - rewrite (Permutation_swap b y). rewrite (IH j Hj). apply Permutation_swap.
Qed.

(** Exchanging two items of a list gives a permutation of it. *)
Lemma exchange_perm {A} (l : list A) (i j : nat) (x y : A) :
  l !! i = Some x -> l !! j = Some y -> <[i := y]> (<[j := x]> l) ≡ₚ l.
Proof.
  revert i j. induction l as [|a l IH]; intros i j Hi Hj; [discriminate|].
  destruct i as [|i], j as [|j]; cbn in *.
  - injection Hj as ->. reflexivity.
  - injection Hi as ->. apply insert_head_perm, Hj.
  - injection Hj as ->. apply insert_head_perm, Hi.
  - f_equiv. apply IH; assumption.
Qed.

Lemma baseRandom_bounds (lower upper : nat) (w : World) :
  lower <= upper ->
  exists rand, baseRandom lower upper w = (Ok rand, set_drawn S w) /\
               lower <= rand <= upper.
Proof.
  intros Hle. eexists. split; [reflexivity|].
  pose proof (Nat.mod_upper_bound (entropy w (drawn w)) (upper - lower + 1)).
  lia.
Qed.

(** The shuffle only moves the items about: run on the items that [f] gives
    for a list of positions, it returns the items of a permutation of the
    positions. *)
Lemma shuffle_from_perm (f : nat -> JsVal) (steps : nat) :
  forall (index : nat) (perm : list nat) (w : World),
    index + steps <= length perm ->
    exists perm', eval (shuffle_from steps index (map f perm)) w = Ok (map f perm') /\
                  perm' ≡ₚ perm.
Proof.
  induction steps as [|steps IH]; intros index perm w Hlen.
  - exists perm. split; reflexivity.
  - cbn [shuffle_from]. unfold eval, bind.
    destruct (baseRandom_bounds index (length (map f perm) - 1) w)
      as (rand & -> & Hr); [rewrite length_map; lia|].
    rewrite length_map in Hr.
    destruct (lookup_lt_is_Some_2 perm rand) as [pr Hpr]; [lia|].
    destruct (lookup_lt_is_Some_2 perm index) as [pi Hpi]; [lia|].
    assert (Hfr : map f perm !! rand = Some (f pr)).
    { change (map f perm) with (f <$> perm).
      rewrite list_lookup_fmap, Hpr. reflexivity. }
    assert (Hfi : map f perm !! index = Some (f pi)).
    { change (map f perm) with (f <$> perm).
      rewrite list_lookup_fmap, Hpi. reflexivity. }
    rewrite Hfr, Hfi. cbn [default from_option]. unfold id.
    assert (Hins : <[index:=f pr]> (<[rand:=f pi]> (map f perm))
                   = map f (<[index:=pr]> (<[rand:=pi]> perm))).
    { change (map f ?l) with (f <$> l). rewrite !list_fmap_insert. reflexivity. }
    rewrite Hins.
    destruct (IH (S index) (<[index:=pr]> (<[rand:=pi]> perm)) (set_drawn S w))
      as (perm' & Hev & Hperm); [rewrite !length_insert; lia|].
    exists perm'. split; [exact Hev|].
    rewrite Hperm. apply exchange_perm; assumption.
Qed.

Lemma map_lookup_seq (pool : list JsVal) :
  map (fun i => default JUndefined (pool !! i)) (seq 0 (length pool)) = pool.
Proof.
  induction pool as [|x pool IH] using rev_ind; [reflexivity|].
  rewrite length_app. cbn [length]. rewrite Nat.add_1_r, seq_S, map_app.
  cbn [map]. f_equal.
  - rewrite <- IH at 2. apply map_ext_in. intros i Hi. apply in_seq in Hi.
    rewrite lookup_app_l by lia. reflexivity.
  - cbn. rewrite list_lookup_middle by reflexivity. reflexivity.
Qed.

(** What [_.sampleSize(pool, n)] returns: the items at [min n |pool|]
    positions of the pool, no position being taken twice. *)
Lemma sampleSize_positions (pool : list JsVal) (n : nat) (w : World) :
  exists positions,
    eval (sampleSize pool n) w
    = Ok (map (fun i => default JUndefined (pool !! i)) positions) /\
    length positions = Nat.min n (length pool) /\
    NoDup positions /\ Forall (fun i => i < length pool) positions.
Proof.
  unfold sampleSize, shuffleSelf, eval, bind.
  set (size := Nat.min n (length pool)).
  set (f := fun i => default JUndefined (pool !! i)).
  destruct (shuffle_from_perm f size 0 (seq 0 (length pool)) w)
    as (perm' & Hev & Hperm); [rewrite length_seq; lia|].
  unfold f in Hev. rewrite map_lookup_seq in Hev. unfold eval in Hev.
  destruct (shuffle_from size 0 pool w) as [r w1]. cbn [fst] in Hev. subst r.
  exists (take size perm'). cbn [fst ret].
  split; [|split; [|split]].
  - f_equal. change (map ?g ?l) with (g <$> l). symmetry. apply fmap_take.
  - rewrite length_take, Hperm, length_seq. lia.
  - apply (sublist_NoDup _ perm'); [|apply sublist_take].
    rewrite Hperm. apply NoDup_seq.
  - apply Forall_take. rewrite Hperm. apply Forall_forall.
    intros i Hi. apply elem_of_seq in Hi. lia.
Qed.

Lemma ids_mapM (data : list JsVal) (w : World) :
  forallb (fun c => negb (nullish c)) data = true ->
  mapM (fun category => lift (getProp category "id")) data w
  = (Ok (map (fun c => prop c "id") data), w).
Proof.
  induction data as [|c data IH]; intros Hall; [reflexivity|].
  cbn [forallb] in Hall. apply andb_prop in Hall as [Hc Hall].
  cbn [mapM map]. unfold bind at 1, lift at 1.
  assert (Hp : getProp c "id" = Ok (prop c "id")).
  { unfold prop. destruct c; try discriminate; reflexivity. }
  rewrite Hp. unfold bind at 1. rewrite (IH Hall). reflexivity.
Qed.

(** C4, as the code has it.  From every pool the remote call returns,
    [getCategoryIds] returns the identifiers found at as many positions of
    the pool as the pool allows up to NUM_CATEGORIES, no position being
    drawn twice: each is a member of the pool, they are pairwise distinct
    when the identifiers of the pool are, and they are NUM_CATEGORIES when
    the pool has that many. *)
Theorem getCategoryIds_sample (w : World) (data : list JsVal) :
  network w (length (sent w)) ids_url = Resolved (JArr data) ->
  forallb (fun c => negb (nullish c)) data = true ->
  let pool := map (fun c => prop c "id") data in
  exists ids positions,
    eval getCategoryIds w = Ok ids /\
    length ids = Nat.min NUM_CATEGORIES (length pool) /\
    NoDup positions /\
    Forall2 (fun id i => pool !! i = Some id) ids positions /\
    (forall id, id ∈ ids -> id ∈ pool) /\
    (NoDup pool -> NoDup ids) /\
    (NUM_CATEGORIES <= length pool -> length ids = NUM_CATEGORIES).
Proof.
  intros Hnet Hall pool.
  set (w1 := set_sent (fun l => (l ++ [mkRequest ids_url (dom w)])%list) w).
  destruct (sampleSize_positions pool NUM_CATEGORIES w1)
    as (positions & Hev & Hlen & Hnd & Hlt).
  set (f := fun i => default JUndefined (pool !! i)) in *.
  assert (Hrun : eval getCategoryIds w = Ok (map f positions)).
  { unfold eval, getCategoryIds. fold ids_url. unfold bind at 1, axios_get.
    rewrite Hnet. fold w1. unfold bind at 1, array_map.
    rewrite (ids_mapM data w1 Hall). exact Hev. }
  assert (Hidx : forall i, i ∈ positions -> pool !! i = Some (f i)).
  { intros i Hi. rewrite Forall_forall in Hlt. specialize (Hlt i Hi).
    destruct (lookup_lt_is_Some_2 pool i Hlt) as [x Hx].
    unfold f. rewrite Hx. reflexivity. }
  exists (map f positions), positions.
  split; [exact Hrun|]. split; [rewrite length_map; exact Hlen|].
  split; [exact Hnd|]. split; [|split; [|split]].
  - clear -Hidx. induction positions as [|i ps IH]; cbn [map]; constructor.
    + apply Hidx. left.
    + apply IH. intros j Hj. apply Hidx. right. exact Hj.
  - intros id Hid. change (map f positions) with (f <$> positions) in Hid.
    apply list_elem_of_fmap in Hid as (i & -> & Hi).
    eapply list_elem_of_lookup_2, Hidx, Hi.
  - intros Hpool. change (map f positions) with (f <$> positions).
    apply NoDup_fmap_2_strong; [|exact Hnd].
    intros i j Hi Hj Heq. apply Hidx in Hi, Hj. rewrite Heq in Hi.
    eapply NoDup_lookup; eassumption.
  - intros Hge. rewrite length_map, Hlen. lia.
Qed.

(** ** Clicks on the board *)

Lemma handleClick_element (w : World) (a : addr) :
  handleClick (VElem a) w = (Throw TypeError, w).
Proof.
  cbv beta iota zeta delta
    [handleClick bind get_target get_clue getElement ret get_field throw].
  destruct (dom w !! a) as [e|]; [|reflexivity].
  destruct (target e); reflexivity.
Qed.

Lemma handleClick_ok_inv (w : World) (evt : Value) :
  eval (handleClick evt) w = Ok tt ->
  exists a e c, evt = VEvent (VElem a) /\ dom w !! a = Some e /\ clue e = Some c.
Proof.
  unfold eval.
  cbv beta iota zeta delta
    [handleClick bind get_target get_clue getElement ret get_field throw].
  destruct evt as [| s | a | t | a]; try discriminate.
  - destruct (dom w !! a) as [e|]; [|discriminate].
    destruct (target e); discriminate.
  - destruct t as [| s | a | t | a]; try discriminate.
    destruct (dom w !! a) as [e|] eqn:He; [|discriminate].
    destruct (clue e) as [c|] eqn:Hc; [|discriminate].
    intros _. exists a, e, c. auto.
Qed.

#[local] Instance only_console_preorder : PreOrder only_console.
Proof.
  split.
  - intros w. unfold only_console. repeat split.
    exists 0. symmetry. apply app_nil_r.
  - intros w1 w2 w3 (Hh & Hd & Hc & Hp & Hs & k & Hk)
                    (Hh' & Hd' & Hc' & Hp' & Hs' & k' & Hk').
    unfold only_console. repeat split; try congruence.
    exists (k + k'). rewrite Hk', Hk, replicate_add, app_assoc. reflexivity.
Qed.

Lemma clue_listener_only_console (this : addr) :
  keeps only_console (clue_listener this).
Proof.
  intros w. unfold exec, clue_listener, try_catch.
  rewrite handleClick_element. unfold only_console. cbn. repeat split.
  exists 1. reflexivity.
Qed.

#[local] Hint Resolve clue_listener_only_console : keeps.

Lemma click_only_console (a : addr) : keeps only_console (click a).
Proof. unfold click. keeps_auto. Qed.

#[local] Instance plain_growth_preorder : PreOrder plain_growth.
Proof.
  split.
  - intros w. split; [reflexivity|]. intros a e' He'. rewrite He'.
    repeat split.
  - intros w1 w2 w3 [Hl H12] [Hl' H23]. split; [lia|].
    intros a e3 H3. specialize (H23 a e3 H3).
    destruct (dom w2 !! a) as [e2|] eqn:H2.
    + specialize (H12 a e2 H2).
      destruct (dom w1 !! a) as [e1|].
      * destruct H12 as (? & ? & ?), H23 as (? & ? & ?).
        repeat split; congruence.
      * destruct H12 as (? & ? & ?), H23 as (? & ? & ?).
        repeat split; congruence.
    + apply lookup_ge_None in H2.
      rewrite (proj2 (lookup_ge_None (dom w1) a)) by lia. exact H23.
Qed.

Lemma same_dom_plain_growth (w w' : World) : dom w' = dom w -> plain_growth w w'.
Proof.
  intros Hd. split; [rewrite Hd; reflexivity|].
  intros a e' He'. rewrite Hd in He'. rewrite He'. repeat split.
Qed.

Lemma update_element_plain (a : addr) (f : Element -> Element) :
  (forall e, same_marks e (f e)) -> keeps plain_growth (update_element a f).
Proof.
  intros Hf w. unfold exec, update_element, modify. cbn [snd].
  split; [cbn; rewrite length_alter; reflexivity|].
  intros b e' He'. cbn [dom set_dom] in He'.
  destruct (decide (a = b)) as [-> | Hne].
  - rewrite list_lookup_alter_eq in He'.
    destruct (dom w !! b) as [e|]; [|discriminate].
    injection He' as <-. apply Hf.
  - rewrite list_lookup_alter_ne in He' by assumption. rewrite He'.
    repeat split.
Qed.

Lemma set_childNodes_marks (k : list Child) (e : Element) :
  same_marks e (set_childNodes k e).
Proof. repeat split. Qed.

Lemma createElement_plain (tag : string) : keeps plain_growth (createElement tag).
Proof.
  intros w. unfold exec, createElement. cbn [snd].
  split; [cbn; rewrite length_app; lia|].
  intros a e' He'. cbn [dom set_dom] in He'.
  destruct (dom w !! a) as [e|] eqn:He.
  - rewrite lookup_app_l in He' by (eapply lookup_lt_Some; eassumption).
    assert (e' = e) as -> by congruence. repeat split.
  - apply lookup_ge_None in He. rewrite lookup_app_r in He' by assumption.
    destruct (a - length (dom w)); cbn in He'; [|discriminate].
    injection He' as <-. repeat split.
Qed.

Lemma console_error_plain (e : Error) : keeps plain_growth (console_error e).
Proof. intros w. apply same_dom_plain_growth. reflexivity. Qed.

#[local] Hint Resolve createElement_plain console_error_plain : keeps.
#[local] Hint Extern 1 (keeps plain_growth (update_element _ _)) =>
  apply update_element_plain; intros ?; apply set_childNodes_marks : keeps.

Lemma buildGrid_plain : keeps plain_growth buildGrid.
Proof. unfold buildGrid. keeps_auto. Qed.

Lemma fillTable_plain : keeps plain_growth fillTable.
Proof.
  intros w. unfold exec. rewrite fillTable_unfold. unfold try_catch, bind.
  pose proof (fetchCategories_fetch w) as (Hd & _). unfold exec in Hd.
  destruct (fetchCategories w) as [[cats|e] w1]; cbn [snd] in *.
  - assert (H1 : plain_growth w (set_categories cats w1))
      by (apply same_dom_plain_growth; exact Hd).
    pose proof (buildGrid_plain (set_categories cats w1)) as H2.
    unfold exec, modify in *.
    destruct (buildGrid (set_categories cats w1)) as [[[]|e] w2]; cbn [snd] in *.
    + etransitivity; eassumption.
    + etransitivity; [eassumption|]. etransitivity; [eassumption|].
      apply console_error_plain.
  - etransitivity; [apply same_dom_plain_growth; exact Hd|].
    apply console_error_plain.
Qed.

Lemma forEach_listeners_other (l : list addr) (a : addr) (w : World) :
  ~ In a l ->
  dom (exec (forEach
               (fun clue =>
                  update_element clue
                    (fun e => set_clickListeners (S (clickListeners e)) e)) l) w) !! a
  = dom w !! a.
Proof.
  revert w. induction l as [|x l IH]; intros w Hnot; [reflexivity|].
  cbn [forEach]. unfold exec in *. rewrite update_run.
  rewrite IH by (intros H; apply Hnot; right; exact H).
  cbn [dom set_dom]. apply list_lookup_alter_ne.
  intros ->. apply Hnot. left. reflexivity.
Qed.

Lemma addClueClickHandler_others (w : World) (a : addr) (e : Element) :
  dom w !! a = Some e -> has_class "clue" e = false ->
  dom (exec addClueClickHandler w) !! a = Some e.
Proof.
  intros He Hc.
  change (exec addClueClickHandler w)
    with (exec (forEach
                  (fun clue =>
                     update_element clue
                       (fun e => set_clickListeners (S (clickListeners e)) e))
                  (List.filter (fun a => match dom w !! a with
                                         | Some e => has_class "clue" e
                                         | None => false
                                         end)
                               (seq 0 (length (dom w))))) w).
  rewrite forEach_listeners_other; [exact He|].
  intros Hin. apply filter_In in Hin as [_ Hin]. rewrite He, Hc in Hin.
  discriminate.
Qed.

(** C2.  [handleClick] returns only when it is handed an event whose target
    is an element that carries a clue; handed an element, as the registered
    listener hands it [this], it throws a TypeError before reading any clue
    and changes nothing.  [addClueClickHandler] leaves every element that
    does not bear the class "clue" as it is, and every element [fillTable]
    creates is without that class, without a clue and without a listener.
    So a click anywhere, on a board that [startGame] has rendered after
    [addClueClickHandler] has run as on any page, changes nothing but the
    console, where each listener it meets reports a TypeError: no clue is
    ever moved to another stage. *)
Theorem clicks_never_toggle :
  (forall w a, handleClick (VElem a) w = (Throw TypeError, w))
  /\ (forall w evt,
        eval (handleClick evt) w = Ok tt ->
        exists a e c, evt = VEvent (VElem a) /\ dom w !! a = Some e /\
                      clue e = Some c)
  /\ (forall w a e,
        dom w !! a = Some e -> has_class "clue" e = false ->
        dom (exec addClueClickHandler w) !! a = Some e)
  /\ (forall w a e,
        dom (exec fillTable w) !! a = Some e -> length (dom w) <= a ->
        has_class "clue" e = false /\ clue e = None /\ clickListeners e = 0)
  /\ (forall w a, only_console w (exec (click a) w))
  /\ (forall w a,
        let board := exec startGame (exec addClueClickHandler w) in
        heap (exec (click a) board) = heap board).
Proof.
  split; [exact handleClick_element|]. split; [exact handleClick_ok_inv|].
  split; [exact addClueClickHandler_others|]. split; [|split].
  - intros w a e He Hge. destruct (fillTable_plain w) as [_ Hmarks].
    specialize (Hmarks a e He).
    rewrite (proj2 (lookup_ge_None (dom w) a)) in Hmarks by exact Hge.
    destruct Hmarks as (Hc & Hclue & Hl). unfold has_class. rewrite Hc. auto.
  - intros w a. apply click_only_console.
  - intros w a board. apply (click_only_console a board).
Qed.

(** ** Building the grid *)

Lemma create_run (tag : string) {A} (k : addr -> M A) (w : World) :
  (a <- createElement tag; k a) w
  = k (length (dom w)) (set_dom (fun d => (d ++ [fresh_element tag])%list) w).
Proof. reflexivity. Qed.

Lemma setText_run (a : addr) (v : JsVal) (s : string) {A} (k : M A) (w : World) :
  ToDOMString v = Ok s ->
  (setTextContent a v;; k) w = k (set_dom (alter (set_childNodes (text_nodes s)) a) w).
Proof. intros H. unfold setTextContent, bind, lift. rewrite H. reflexivity. Qed.

Lemma append_run (parent child : addr) {A} (k : M A) (w : World) :
  (appendChild parent child;; k) w = k (set_dom (alter (add_kids [child]) parent) w).
Proof. reflexivity. Qed.

Lemma add_kids_add_kids (k1 k2 : list addr) (e : Element) :
  add_kids k2 (add_kids k1 e) = add_kids (k1 ++ k2) e.
Proof.
  unfold add_kids, set_childNodes. cbn. rewrite map_app, app_assoc. reflexivity.
Qed.

Lemma add_kids_nil (e : Element) : add_kids [] e = e.
Proof. unfold add_kids, set_childNodes. cbn. rewrite app_nil_r. destruct e; reflexivity. Qed.

(** The loop that fills the header row [r]. *)
Lemma header_loop (r : addr) (cs : list Category) (titles : list string) :
  Forall2 (fun c s => ToDOMString (title c) = Ok s) cs titles ->
  forall (w : World) (er : Element),
    dom w !! r = Some er ->
    exists w',
      forEach (fun category =>
                 headerCell <- createElement "th";
                 setTextContent headerCell (title category);;
                 appendChild r headerCell) cs w = (Ok tt, w') /\
      length (dom w') = length (dom w) + length cs /\
      dom w' !! r = Some (add_kids (seq (length (dom w)) (length cs)) er) /\
      (forall a, a < length (dom w) -> a <> r -> dom w' !! a = dom w !! a) /\
      (forall i s, titles !! i = Some s ->
                   dom w' !! (length (dom w) + i) = Some (leaf "th" s)) /\
      categories w' = categories w /\ page w' = page w.
Proof.
  induction 1 as [|c s cs titles Hs _ IH]; intros w er Hr.
  - exists w. cbn. rewrite add_kids_nil, Nat.add_0_r. repeat split; auto.
    intros i s Hi. destruct i; discriminate.
  - pose proof (lookup_lt_Some _ _ _ Hr) as Hlt.
    set (n := length (dom w)) in *.
    set (w1 := set_dom (alter (add_kids [n]) r)
                 (set_dom (alter (set_childNodes (text_nodes s)) n)
                    (set_dom (fun d => (d ++ [fresh_element "th"])%list) w))).
    assert (Hn1 : dom w1 !! n = Some (leaf "th" s)).
    { cbn. rewrite list_lookup_alter_ne by lia.
      rewrite list_lookup_alter_eq, list_lookup_middle by reflexivity.
      reflexivity. }
    assert (Hr1 : dom w1 !! r = Some (add_kids [n] er)).
    { cbn. rewrite list_lookup_alter_eq, list_lookup_alter_ne by lia.
      rewrite lookup_app_l by exact Hlt. rewrite Hr. reflexivity. }
    assert (Hl1 : length (dom w1) = S n).
    { cbn. rewrite !length_alter, length_app. cbn. lia. }
    assert (Ho1 : forall a, a < n -> a <> r -> dom w1 !! a = dom w !! a).
    { intros a Ha Har. cbn. rewrite !list_lookup_alter_ne by lia.
      apply lookup_app_l. exact Ha. }
    destruct (IH w1 _ Hr1) as (w' & Hrun & Hlen & Hr' & Ho & Hcells & Hc & Hp).
    exists w'. split; [|split; [|split; [|split; [|split]]]].
    + cbn [forEach]. unfold bind at 1. rewrite create_run.
      rewrite (setText_run _ _ s) by exact Hs.
      unfold appendChild, update_element, modify. cbn [fst snd]. exact Hrun.
    + rewrite Hlen, Hl1. cbn [length]. lia.
    + rewrite Hr', Hl1, add_kids_add_kids. reflexivity.
    + intros a Ha Har. rewrite Ho by lia. apply Ho1; assumption.
    + intros i s' Hi. destruct i as [|i]; cbn in Hi.
      * injection Hi as <-. rewrite Nat.add_0_r, Ho by lia. exact Hn1.
      * replace (n + S i) with (length (dom w1) + i) by lia. apply Hcells, Hi.
    + split; [rewrite Hc; reflexivity | rewrite Hp; reflexivity].
Qed.

Lemma cell_addrs_range (n k : nat) :
  Forall (fun a => n <= a /\ S a < n + 2 * k) (cell_addrs n k).
Proof.
  revert n. induction k as [|k IH]; intros n; cbn [cell_addrs]; constructor.
  - lia.
  - eapply Forall_impl; [apply IH|]. cbn. intros a Ha. lia.
Qed.

Lemma cell_at_frame (d d' : list Element) (a : addr) :
  d' !! a = d !! a -> d' !! S a = d !! S a -> cell_at d a -> cell_at d' a.
Proof. unfold cell_at. intros -> ->. auto. Qed.

Lemma cells_frame (d d' : list Element) (n k : nat) :
  (forall a, n <= a < n + 2 * k -> d' !! a = d !! a) ->
  Forall (cell_at d) (cell_addrs n k) -> Forall (cell_at d') (cell_addrs n k).
Proof.
  intros Hsame Hc. pose proof (cell_addrs_range n k) as Hr.
  induction Hc as [|a l Ha _ IH]; constructor.
  - apply Forall_inv in Hr. apply (cell_at_frame d); [| |exact Ha];
      apply Hsame; lia.
  - apply IH. eapply Forall_inv_tail, Hr.
Qed.

Lemma row_at_frame (k : nat) (d d' : list Element) (n : addr) :
  (forall a, n <= a < S n + 2 * k -> d' !! a = d !! a) ->
  row_at k d n -> row_at k d' n.
Proof.
  intros Hsame [Hrow Hcells]. split.
  - rewrite Hsame by lia. exact Hrow.
  - apply (cells_frame d); [|exact Hcells]. intros a Ha. apply Hsame. lia.
Qed.

(** The loop that fills the row [r] of the body. *)
Lemma cells_loop (r : addr) (cs : list Category) :
  forall (w : World) (er : Element),
    dom w !! r = Some er ->
    exists w',
      forEach (fun category =>
                 bodyCell <- insertCell r;
                 questionCell <- createElement "span";
                 setTextContent questionCell (JStr "?");;
                 appendChild bodyCell questionCell) cs w = (Ok tt, w') /\
      length (dom w') = length (dom w) + 2 * length cs /\
      dom w' !! r = Some (add_kids (cell_addrs (length (dom w)) (length cs)) er) /\
      (forall a, a < length (dom w) -> a <> r -> dom w' !! a = dom w !! a) /\
      Forall (cell_at (dom w')) (cell_addrs (length (dom w)) (length cs)) /\
      categories w' = categories w /\ page w' = page w.
Proof.
  induction cs as [|c cs IH]; intros w er Hr.
  - exists w. cbn. rewrite add_kids_nil, Nat.add_0_r. repeat split; auto.
  - pose proof (lookup_lt_Some _ _ _ Hr) as Hlt.
    set (n := length (dom w)) in *.
    set (w1 := set_dom (alter (add_kids [S n]) n)
                 (set_dom (alter (set_childNodes (text_nodes "?")) (S n))
                    (set_dom (fun d => (d ++ [fresh_element "span"])%list)
                       (set_dom (alter (add_kids [n]) r)
                          (set_dom (fun d => (d ++ [fresh_element "td"])%list) w))))).
    assert (Hl1 : length (dom w1) = S (S n)).
    { cbn. rewrite !length_alter, length_app, length_alter, length_app. cbn. lia. }
    assert (Hr1 : dom w1 !! r = Some (add_kids [n] er)).
    { cbn. rewrite !list_lookup_alter_ne by lia.
      rewrite lookup_app_l by (rewrite length_alter, length_app; cbn; lia).
      rewrite list_lookup_alter_eq, lookup_app_l by exact Hlt.
      rewrite Hr. reflexivity. }
    assert (Hc1 : cell_at (dom w1) n).
    { split; cbn.
      - rewrite list_lookup_alter_eq, list_lookup_alter_ne by lia.
        rewrite lookup_app_l by (rewrite length_alter, length_app; cbn; lia).
        rewrite list_lookup_alter_ne by lia.
        rewrite list_lookup_middle by reflexivity. reflexivity.
      - rewrite list_lookup_alter_ne by lia. rewrite list_lookup_alter_eq.
        rewrite list_lookup_middle
          by (rewrite length_alter, length_app; cbn; lia).
        reflexivity. }
    assert (Ho1 : forall a, a < n -> a <> r -> dom w1 !! a = dom w !! a).
    { intros a Ha Har. cbn. rewrite !list_lookup_alter_ne by lia.
      rewrite lookup_app_l by (rewrite length_alter, length_app; cbn; lia).
      rewrite list_lookup_alter_ne by lia. apply lookup_app_l. exact Ha. }
    destruct (IH w1 _ Hr1) as (w' & Hrun & Hlen & Hr' & Ho & Hcells & Hc & Hp).
    exists w'. split; [|split; [|split; [|split; [|split]]]].
    + rewrite <- Hrun. cbn [forEach]. unfold bind at 1.
      assert (Hone : (bodyCell <- insertCell r;
                      questionCell <- createElement "span";
                      setTextContent questionCell (JStr "?");;
                      appendChild bodyCell questionCell) w
                     = (Ok tt,
                        set_dom (alter (add_kids [length (dom w ++ [fresh_element "td"])]) n)
                          (set_dom (alter (set_childNodes (text_nodes "?"))
                                      (length (dom w ++ [fresh_element "td"])))
                             (set_dom (fun d => (d ++ [fresh_element "span"])%list)
                                (set_dom (alter (add_kids [n]) r)
                                   (set_dom (fun d => (d ++ [fresh_element "td"])%list) w)))))).
      { unfold insertCell, appendChild, setTextContent, update_element, modify,
          createElement, bind, ret, lift. cbn [ToDOMString ToString fst snd dom set_dom].
        rewrite length_alter. reflexivity. }
      rewrite Hone. rewrite length_app. cbn [length].
      replace (length (dom w) + 1) with (S n) by (unfold n; lia).
      reflexivity.
    + rewrite Hlen, Hl1. cbn [length]. lia.
    + rewrite Hr', Hl1, add_kids_add_kids. reflexivity.
    + intros a Ha Har. rewrite Ho by lia. apply Ho1; assumption.
    + rewrite Hl1 in Hcells. cbn [length cell_addrs]. constructor; [|exact Hcells].
      apply (cell_at_frame (dom w1)); [| |exact Hc1]; apply Ho; lia.
    + split; [rewrite Hc; reflexivity | rewrite Hp; reflexivity].
Qed.

(** One turn of the loop over the rows of the body [tb]. *)
Lemma row_step (tb : addr) (w : World) (etb : Element) :
  dom w !! tb = Some etb ->
  exists w',
    (bodyRow <- insertRow tb;
     cs <- gets categories;
     forEach (fun category =>
                bodyCell <- insertCell bodyRow;
                questionCell <- createElement "span";
                setTextContent questionCell (JStr "?");;
                appendChild bodyCell questionCell) cs) w = (Ok tt, w') /\
    length (dom w') = S (length (dom w)) + 2 * length (categories w) /\
    dom w' !! tb = Some (add_kids [length (dom w)] etb) /\
    (forall a, a < length (dom w) -> a <> tb -> dom w' !! a = dom w !! a) /\
    row_at (length (categories w)) (dom w') (length (dom w)) /\
    categories w' = categories w /\ page w' = page w.
Proof.
  intros Htb. pose proof (lookup_lt_Some _ _ _ Htb) as Hlt.
  set (n := length (dom w)) in *.
  set (w1 := set_dom (alter (add_kids [n]) tb)
               (set_dom (fun d => (d ++ [fresh_element "tr"])%list) w)).
  assert (Hl1 : length (dom w1) = S n).
  { cbn. rewrite length_alter, length_app. cbn. lia. }
  assert (Hn1 : dom w1 !! n = Some (fresh_element "tr")).
  { cbn. rewrite list_lookup_alter_ne by lia.
    apply list_lookup_middle. reflexivity. }
  assert (Htb1 : dom w1 !! tb = Some (add_kids [n] etb)).
  { cbn. rewrite list_lookup_alter_eq, lookup_app_l by exact Hlt.
    rewrite Htb. reflexivity. }
  destruct (cells_loop n (categories w) w1 _ Hn1)
    as (w' & Hrun & Hlen & Hr' & Ho & Hcells & Hc & Hp).
  rewrite Hl1 in *.
  exists w'. split; [|split; [|split; [|split; [|split]]]].
  - rewrite <- Hrun. reflexivity.
  - rewrite Hlen. lia.
  - rewrite Ho by lia. exact Htb1.
  - intros a Ha Hne. rewrite Ho by lia. cbn.
    rewrite list_lookup_alter_ne by lia. apply lookup_app_l. exact Ha.
  - split; [|exact Hcells]. rewrite Hr'. reflexivity.
  - split; [rewrite Hc; reflexivity | rewrite Hp; reflexivity].
Qed.

Lemma row_addrs_range (n k c : nat) :
  Forall (fun a => n <= a) (row_addrs n k c).
Proof.
  revert n. induction c as [|c IH]; intros n; cbn [row_addrs]; constructor.
  - lia.
  - eapply Forall_impl; [apply IH|]. cbn. intros a Ha. lia.
Qed.

(** The loop over the rows of the body [tb]. *)
Lemma rows_loop (tb : addr) (c : nat) :
  forall (w : World) (etb : Element),
    dom w !! tb = Some etb ->
    exists w',
      times c
        (bodyRow <- insertRow tb;
         cs <- gets categories;
         forEach (fun category =>
                    bodyCell <- insertCell bodyRow;
                    questionCell <- createElement "span";
                    setTextContent questionCell (JStr "?");;
                    appendChild bodyCell questionCell) cs) w = (Ok tt, w') /\
      dom w' !! tb
      = Some (add_kids (row_addrs (length (dom w)) (length (categories w)) c) etb) /\
      (forall a, a < length (dom w) -> a <> tb -> dom w' !! a = dom w !! a) /\
      Forall (row_at (length (categories w)) (dom w'))
             (row_addrs (length (dom w)) (length (categories w)) c) /\
      categories w' = categories w /\ page w' = page w.
Proof.
  induction c as [|c IH]; intros w etb Htb.
  - exists w. cbn. rewrite add_kids_nil. repeat split; auto.
  - pose proof (lookup_lt_Some _ _ _ Htb) as Hlt.
    destruct (row_step tb w etb Htb)
      as (w1 & Hrun1 & Hl1 & Htb1 & Ho1 & Hrow1 & Hc1 & Hp1).
    destruct (IH w1 _ Htb1) as (w' & Hrun & Htb' & Ho & Hrows & Hc & Hp).
    rewrite Hc1, Hl1 in *.
    exists w'. split; [|split; [|split; [|split]]].
    + cbn [times]. unfold bind at 1. rewrite Hrun1. exact Hrun.
    + rewrite Htb', add_kids_add_kids. reflexivity.
    + intros a Ha Hne. rewrite Ho by lia. apply Ho1; assumption.
    + cbn [row_addrs]. constructor; [|exact Hrows].
      apply (row_at_frame _ (dom w1)); [|exact Hrow1].
      intros a Ha. apply Ho; lia.
    + split; congruence.
Qed.

(** *** Reading the tree *)

Lemma subtree_S (f : nat) (d : list Element) (a : addr) :
  subtree (S f) d a =
  match d !! a with
  | Some e =>
      TElem (tagName e)
            (map (fun c => match c with
                           | TextNode s => TText s
                           | ElemNode b => subtree f d b
                           end) (childNodes e))
  | None => TElem EmptyString []
  end.
Proof. reflexivity. Qed.

Lemma subtree_leaf (f : nat) (d : list Element) (a : addr) (tag s : string) :
  d !! a = Some (leaf tag s) -> subtree (S f) d a = TElem tag (text_trees s).
Proof.
  intros H. cbn [subtree]. rewrite H. cbn. unfold text_nodes, text_trees.
  destruct (String.eqb s EmptyString); reflexivity.
Qed.

Lemma subtree_holder (f : nat) (d : list Element) (a : addr) (tag : string)
    (kids : list addr) :
  d !! a = Some (holder tag kids) ->
  subtree (S f) d a = TElem tag (map (subtree f d) kids).
Proof.
  intros H. cbn [subtree]. rewrite H. cbn. rewrite map_map. reflexivity.
Qed.

Lemma subtree_cell (f : nat) (d : list Element) (a : addr) :
  cell_at d a -> subtree (S (S f)) d a = body_cell.
Proof.
  intros [Htd Hspan]. rewrite (subtree_holder _ _ _ _ _ Htd). cbn [map].
  rewrite (subtree_leaf _ _ _ _ _ Hspan). reflexivity.
Qed.

Lemma cell_addrs_length (n k : nat) : length (cell_addrs n k) = k.
Proof. revert n. induction k; intros n; cbn; auto. Qed.

Lemma row_addrs_length (n k c : nat) : length (row_addrs n k c) = c.
Proof. revert n. induction c; intros n; cbn; auto. Qed.

Lemma map_const_replicate {A B} (b : B) (l : list A) :
  map (fun _ => b) l = replicate (length l) b.
Proof. induction l; cbn; congruence. Qed.

Lemma subtree_all (g : addr -> Tree) (P : addr -> Prop) (t : Tree) (l : list addr) :
  (forall a, P a -> g a = t) -> Forall P l -> map g l = replicate (length l) t.
Proof.
  intros Hg. induction 1 as [|a l Ha _ IH]; cbn; [reflexivity|].
  rewrite Hg, IH by assumption. reflexivity.
Qed.

Lemma subtree_row (f : nat) (k : nat) (d : list Element) (a : addr) :
  row_at k d a ->
  subtree (S (S (S f))) d a = TElem "tr" (replicate k body_cell).
Proof.
  intros [Hrow Hcells]. rewrite (subtree_holder _ _ _ _ _ Hrow). f_equal.
  rewrite (subtree_all _ (cell_at d) body_cell _
             (fun a => subtree_cell f d a) Hcells).
  rewrite cell_addrs_length. reflexivity.
Qed.

Lemma subtree_header_cells (f : nat) (d : list Element) (titles : list string) :
  forall n,
    (forall i s, titles !! i = Some s -> d !! (n + i) = Some (leaf "th" s)) ->
    map (subtree (S f) d) (seq n (length titles)) = map header_cell titles.
Proof.
  induction titles as [|s titles IH]; intros n H; [reflexivity|].
  cbn [length seq map]. f_equal.
  - apply subtree_leaf. rewrite <- (Nat.add_0_r n). apply (H 0). reflexivity.
  - apply IH. intros i s' Hi. replace (S n + i) with (n + S i) by lia.
    apply H. exact Hi.
Qed.

Lemma bind_ok {A B} (m : M A) (k : A -> M B) (w w' : World) (a : A) :
  m w = (Ok a, w') -> bind m k w = k a w'.
Proof. intros H. unfold bind. rewrite H. reflexivity. Qed.

Lemma gets_run {A B} (f : World -> A) (k : A -> M B) (w : World) :
  bind (gets f) k w = k (f w) w.
Proof. reflexivity. Qed.

Lemma add_kids_fresh (tag : string) (kids : list addr) :
  add_kids kids (fresh_element tag) = holder tag kids.
Proof. reflexivity. Qed.

(** The statements of [fillTable] that build the grid, run on a page whose
    table is empty. *)
Lemma buildGrid_run (w : World) (t : addr) (te : Element) (titles : list string) :
  jeopardyTable (page w) = Some t -> dom w !! t = Some te -> childNodes te = [] ->
  Forall2 (fun c s => ToDOMString (title c) = Ok s) (categories w) titles ->
  exists w',
    buildGrid w = (Ok tt, w') /\
    subtree 5 (dom w') t = TElem (tagName te) (grid titles) /\
    categories w' = categories w.
Proof.
  intros Ht Hte Hkids Htitles.
  pose proof (lookup_lt_Some _ _ _ Hte) as Hlt.
  pose proof (Forall2_length _ _ _ Htitles) as Hk.
  set (n := length (dom w)) in *.
  (* the head and its row *)
  set (w1 := set_dom (alter (fun e => set_childNodes
                                        (insert_thead (dom w) n (childNodes e)) e) t)
               (set_dom (fun d => (d ++ [fresh_element "thead"])%list) w)).
  assert (Hc1 : createTHead t w = (Ok n, w1)).
  { unfold createTHead, bind, getElement, gets. rewrite Hte, Hkids. reflexivity. }
  assert (Hl1 : length (dom w1) = S n).
  { cbn. rewrite length_alter, length_app. cbn. lia. }
  set (w2 := set_dom (alter (add_kids [S n]) n)
               (set_dom (fun d => (d ++ [fresh_element "tr"])%list) w1)).
  assert (Hc2 : insertRow n w1 = (Ok (S n), w2)).
  { unfold insertRow, bind, createElement, appendChild, update_element, modify, ret.
    rewrite Hl1. reflexivity. }
  assert (Hl2 : length (dom w2) = S (S n)).
  { unfold w2. cbn [dom set_dom]. rewrite length_alter, length_app, Hl1. cbn. lia. }
  assert (Ht2 : dom w2 !! t = Some (set_childNodes [ElemNode n] te)).
  { unfold w2, w1. cbn [dom set_dom]. rewrite list_lookup_alter_ne by lia.
    rewrite lookup_app_l by (rewrite length_alter, length_app; cbn; lia).
    rewrite list_lookup_alter_eq, lookup_app_l by exact Hlt.
    rewrite Hte. cbn. rewrite Hkids. reflexivity. }
  assert (Hn2 : dom w2 !! n = Some (holder "thead" [S n])).
  { unfold w2, w1. cbn [dom set_dom]. rewrite list_lookup_alter_eq.
    rewrite lookup_app_l by (rewrite length_alter, length_app; cbn; lia).
    rewrite list_lookup_alter_ne by lia.
    rewrite list_lookup_middle by reflexivity. reflexivity. }
  assert (Hr2 : dom w2 !! S n = Some (fresh_element "tr")).
  { unfold w2. cbn [dom set_dom]. rewrite list_lookup_alter_ne by lia.
    apply list_lookup_middle. exact (eq_sym Hl1). }
  (* the header cells *)
  destruct (header_loop (S n) (categories w2) titles Htitles w2 _ Hr2)
    as (w3 & Hc3 & Hl3 & Hr3 & Ho3 & Hcells3 & Hcat3 & Hp3).
  rewrite Hl2 in *. rewrite add_kids_fresh in Hr3.
  change (categories w2) with (categories w) in *.
  set (nb := S (S n) + length (categories w)) in *.
  (* the body *)
  set (w4 := set_dom (alter (fun e => set_childNodes
                                        (insert_tbody
                                           (dom w3 ++ [fresh_element "tbody"])%list
                                           nb (childNodes e)) e) t)
               (set_dom (fun d => (d ++ [fresh_element "tbody"])%list) w3)).
  assert (Hc4 : createTBody t w3 = (Ok nb, w4)).
  { unfold createTBody, bind, createElement, gets, update_element, modify, ret.
    cbn [fst snd dom set_dom]. rewrite Hl3. reflexivity. }
  assert (Hl4 : length (dom w4) = S nb).
  { unfold w4. cbn [dom set_dom]. rewrite length_alter, length_app, Hl3. cbn. lia. }
  assert (Ht4 : dom w4 !! t = Some (set_childNodes [ElemNode n; ElemNode nb] te)).
  { unfold w4. cbn [dom set_dom]. rewrite list_lookup_alter_eq.
    rewrite lookup_app_l by lia. rewrite Ho3 by lia. rewrite Ht2.
    cbn [fmap option_fmap option_map childNodes set_childNodes insert_tbody existsb].
    assert (Htag : has_tag (dom w3 ++ [fresh_element "tbody"])%list "tbody" (ElemNode n)
                   = false).
    { unfold has_tag. rewrite lookup_app_l by lia. rewrite Ho3 by lia.
      rewrite Hn2. reflexivity. }
    rewrite Htag. reflexivity. }
  assert (Hb4 : dom w4 !! nb = Some (fresh_element "tbody")).
  { unfold w4. cbn [dom set_dom]. rewrite list_lookup_alter_ne by lia.
    apply list_lookup_middle. exact (eq_sym Hl3). }
  assert (Ho4 : forall a, a < nb -> a <> t -> dom w4 !! a = dom w3 !! a).
  { intros a Ha Hne. unfold w4. cbn [dom set_dom].
    rewrite list_lookup_alter_ne by lia. apply lookup_app_l. lia. }
  destruct (rows_loop nb NUM_CLUES_PER_CAT w4 _ Hb4)
    as (w5 & Hc5 & Hb5 & Ho5 & Hrows5 & Hcat5 & Hp5).
  rewrite Hl4 in *. rewrite add_kids_fresh in Hb5.
  change (categories w4) with (categories w3) in *. rewrite Hcat3 in *.
  exists w5. split; [|split].
  - unfold buildGrid. rewrite select_run, Ht, Hte.
    rewrite (bind_ok _ _ _ _ _ Hc1), (bind_ok _ _ _ _ _ Hc2), gets_run.
    change (categories w2) with (categories w).
    rewrite (bind_ok _ _ _ _ _ Hc3), (bind_ok _ _ _ _ _ Hc4). exact Hc5.
  - assert (Ht5 : dom w5 !! t = Some (set_childNodes [ElemNode n; ElemNode nb] te)).
    { rewrite Ho5 by lia. exact Ht4. }
    assert (Hn5 : dom w5 !! n = Some (holder "thead" [S n])).
    { rewrite Ho5, Ho4, Ho3 by lia. exact Hn2. }
    assert (Hr5 : dom w5 !! S n
                  = Some (holder "tr" (seq (S (S n)) (length (categories w))))).
    { rewrite Ho5, Ho4 by lia. exact Hr3. }
    assert (Hcells5 : forall i s, titles !! i = Some s ->
                                  dom w5 !! (S (S n) + i) = Some (leaf "th" s)).
    { intros i s Hi. pose proof (lookup_lt_Some _ _ _ Hi) as Hi'.
      rewrite Ho5, Ho4 by lia. apply Hcells3, Hi. }
    rewrite subtree_S, Ht5. cbn [tagName childNodes set_childNodes map].
    f_equal. unfold grid. f_equal; [|f_equal].
    + rewrite (subtree_holder _ _ _ _ _ Hn5). cbn [map]. f_equal. f_equal.
      rewrite (subtree_holder _ _ _ _ _ Hr5). f_equal.
      rewrite Hk. apply subtree_header_cells. exact Hcells5.
    + rewrite (subtree_holder _ _ _ _ _ Hb5). f_equal.
      rewrite (subtree_all _ (row_at (length (categories w)) (dom w5))
                 (TElem "tr" (replicate (length (categories w)) body_cell)) _
                 (fun a => subtree_row 0 _ (dom w5) a) Hrows5).
      rewrite row_addrs_length, map_const_replicate, Hk. reflexivity.
  - congruence.
Qed.

(** C6.  When the fetches succeed and every title is a printable value,
    [fillTable], run on a page whose table is empty (as [showLoadingView]
    leaves it), returns with the table holding a head of one row with one
    header cell for each category, in order, showing the title of the
    category, and a body of NUM_CLUES_PER_CAT rows, each with one cell for
    each category, every cell holding one span that shows "?". *)
Theorem fillTable_grid
    (w : World) (cats : list Category) (titles : list string)
    (t : addr) (te : Element) :
  eval fetchCategories w = Ok cats ->
  jeopardyTable (page w) = Some t -> dom w !! t = Some te -> childNodes te = [] ->
  Forall2 (fun c s => ToDOMString (title c) = Ok s) cats titles ->
  eval fillTable w = Ok tt /\
  subtree 5 (dom (exec fillTable w)) t = TElem (tagName te) (grid titles) /\
  categories (exec fillTable w) = cats.
Proof.
  intros Hfetch Ht Hte Hkids Htitles.
  split; [apply fillTable_returns|].
  pose proof (fetchCategories_fetch w) as (Hd & _ & Hp & _).
  unfold exec, eval in *. rewrite fillTable_unfold. unfold try_catch.
  destruct (fetchCategories w) as [[cats'|e] w1] eqn:Hf; cbn [fst snd] in *;
    [|discriminate].
  injection Hfetch as ->.
  destruct (buildGrid_run (set_categories cats w1) t te titles)
    as (w' & Hrun & Htree & Hcats).
  - cbn. rewrite Hp. exact Ht.
  - cbn. rewrite Hd. exact Hte.
  - exact Hkids.
  - exact Htitles.
  - rewrite (bind_ok _ _ _ _ _ Hf).
    unfold modify, bind. rewrite Hrun. cbn [snd]. split; assumption.
Qed.

(** ** The properties on sample worlds *)

Example sample_ids :
  eval getCategoryIds sample_world
  = Ok [JNum "12"; JNum "16"; JNum "14"; JNum "13"; JNum "11"; JNum "17"].
Proof. vm_compute. reflexivity. Qed.

(** Two clicks on the cell that carries the sample clue. *)
Lemma handleClick_sequence_witness :
  (dom clue_world !! 0 = Some clue_cell /\ heap clue_world !! 0 = Some sample_clue)
  /\ (heap (clicks (VEvent (VElem 0)) 1 clue_world) !! 0
      = Some (mkClue (JStr "2+2") (JNum "4") (JStr "question"))
      /\ displayed (dom (clicks (VEvent (VElem 0)) 1 clue_world)) 0 = "2+2")
  /\ (heap (clicks (VEvent (VElem 0)) 2 clue_world) !! 0
      = Some (mkClue (JStr "2+2") (JNum "4") (JStr "answer"))
      /\ displayed (dom (clicks (VEvent (VElem 0)) 2 clue_world)) 0 = "4").
Proof.
  split; [split; reflexivity|].
  pose proof (handleClick_sequence clue_world 0 clue_cell 0 sample_clue "2+2" "4"
                eq_refl eq_refl eq_refl eq_refl eq_refl eq_refl) as H.
  split; [exact (proj1 H) | exact (proj1 (proj2 H))].
Defined.

(** A click on the heading of class "clue" of the sample page, once the
    listeners are registered and a game has started. *)
Lemma clicks_never_toggle_witness :
  handleClick (VElem 3) sample_world = (Throw TypeError, sample_world)
  /\ only_console (exec startGame (exec addClueClickHandler sample_world))
       (exec (click 3) (exec startGame (exec addClueClickHandler sample_world))).
Proof.
  split.
  - exact (proj1 clicks_never_toggle sample_world 3).
  - exact (proj1 (proj2 (proj2 (proj2 (proj2 clicks_never_toggle))))
             (exec startGame (exec addClueClickHandler sample_world)) 3).
Defined.

(** The claim C3 fails: a category of two clues is returned with two clue
    records, not NUM_CLUES_PER_CAT. *)
Lemma getCategory_two_clues :
  eval (getCategory (JNum "11")) short_world
  = Ok {| title := JStr "Math"; clues := [0; 1] |}
  /\ length [0; 1] <> NUM_CLUES_PER_CAT.
Proof. split; [vm_compute; reflexivity | discriminate]. Qed.

Lemma getCategory_returns_witness :
  eval (getCategory (JNum "11")) short_world
  = Ok {| title := JStr "Math"; clues := [0; 1] |}
  /\ exists data items,
       response short_world (JNum "11") = Ok data /\
       clue_items data = Some items /\
       JStr "Math" = prop data "title" /\
       2 = length items /\
       Forall2 (fun a item =>
                  heap (exec (getCategory (JNum "11")) short_world) !! a
                  = Some (clue_of item)) [0; 1] items /\
       Forall (fun a => exists c,
                   heap (exec (getCategory (JNum "11")) short_world) !! a = Some c /\
                   showing c = JNull) [0; 1].
Proof.
  split; [vm_compute; reflexivity|].
  exact (getCategory_returns short_world (JNum "11")
           {| title := JStr "Math"; clues := [0; 1] |} eq_refl).
Defined.

(** The claim C4 fails: from a pool of two entries with the same
    identifier, two identifiers are returned, not NUM_CATEGORIES, and they
    are equal. *)
Lemma getCategoryIds_twins :
  eval getCategoryIds twin_world = Ok [JNum "7"; JNum "7"]
  /\ length [JNum "7"; JNum "7"] <> NUM_CATEGORIES
  /\ ~ NoDup [JNum "7"; JNum "7"].
Proof.
  split; [vm_compute; reflexivity|]. split; [discriminate|].
  intros H. apply NoDup_cons in H as [H _]. apply H. left.
Qed.

Lemma getCategoryIds_sample_witness :
  network sample_world (length (sent sample_world)) ids_url = Resolved (JArr sample_pool)
  /\ exists ids positions,
       eval getCategoryIds sample_world = Ok ids /\
       length ids = Nat.min NUM_CATEGORIES (length (map (fun c => prop c "id") sample_pool)) /\
       NoDup positions /\
       Forall2 (fun id i => map (fun c => prop c "id") sample_pool !! i = Some id)
               ids positions /\
       (forall id, id ∈ ids -> id ∈ map (fun c => prop c "id") sample_pool) /\
       (NoDup (map (fun c => prop c "id") sample_pool) -> NoDup ids) /\
       (NUM_CATEGORIES <= length (map (fun c => prop c "id") sample_pool) ->
        length ids = NUM_CATEGORIES).
Proof.
  split; [reflexivity|].
  exact (getCategoryIds_sample sample_world sample_pool eq_refl eq_refl).
Defined.

(** When the service is down [fillTable] leaves the page alone. *)
Lemma fillTable_fetch_failure_witness :
  fetch_failure down_world
  /\ eval fillTable down_world = Ok tt
  /\ dom (exec fillTable down_world) = dom down_world
  /\ categories (exec fillTable down_world) = categories down_world.
Proof.
  assert (H : fetch_failure down_world) by (left; reflexivity).
  split; [exact H|]. exact (fillTable_fetch_failure down_world H).
Defined.

(** When the categories cannot be fetched the page is left alone as well,
    and each of the six failures is reported before that of [fillTable]. *)
Example fillTable_flaky :
  dom (exec fillTable flaky_world) = dom flaky_world
  /\ categories (exec fillTable flaky_world) = []
  /\ console (exec fillTable flaky_world)
     = [NetworkError; NetworkError; NetworkError; NetworkError; NetworkError;
        NetworkError; failure].
Proof. vm_compute. repeat split; reflexivity. Qed.

(** The board of the sample world: six categories, five rows. *)
Lemma fillTable_grid_witness :
  eval fetchCategories ready_world = Ok sample_categories
  /\ eval fillTable ready_world = Ok tt
  /\ subtree 5 (dom (exec fillTable ready_world)) 0
     = TElem "table" (grid sample_titles)
  /\ categories (exec fillTable ready_world) = sample_categories.
Proof.
  assert (Hfetch : eval fetchCategories ready_world = Ok sample_categories)
    by (vm_compute; reflexivity).
  split; [exact Hfetch|].
  apply (fillTable_grid ready_world sample_categories sample_titles 0
           (sample_element "table" []) Hfetch eq_refl eq_refl eq_refl).
  repeat constructor.
Defined.

(** A game start on the sample world: fourteen requests, seven of them
    sent by [fillTable]. *)
Lemma startGame_fetches_twice_witness :
  eval fetchCategories ready_world = Ok sample_categories
  /\ startGame sample_world = fillTable (exec fetchCategories ready_world)
  /\ categories (exec fetchCategories ready_world) = categories sample_world.
Proof.
  assert (Hfetch : eval fetchCategories ready_world = Ok sample_categories)
    by (vm_compute; reflexivity).
  split; [exact Hfetch|].
  pose proof (startGame_fetches_twice sample_world sample_categories
                eq_refl eq_refl Hfetch) as H.
  split; [exact (proj1 H) | exact (proj1 (proj2 (proj2 (proj2 H))))].
Defined.

Example startGame_sample_requests :
  length (sent (exec startGame sample_world)) = 14
  /\ length (categories (exec startGame sample_world)) = NUM_CATEGORIES.
Proof. vm_compute. split; reflexivity. Qed.

(** When the service is down [getCategory] throws the wrapped error. *)
Lemma getCategory_throws_witness :
  is_ok (response down_world (JNum "11")) = false
  /\ is_ok (eval (getCategory (JNum "11")) down_world) = false.
Proof.
  assert (H : is_ok (response down_world (JNum "11")) = false) by reflexivity.
  split; [exact H|].
  exact (proj2 (proj1 (getCategory_throws down_world (JNum "11"))) (or_introl H)).
Defined.

(** The button of the sample page after each of the two operations. *)
Lemma loading_view_button_witness :
  eval showLoadingView sample_world = Ok tt
  /\ button_state (exec showLoadingView sample_world) = Some (true, "Loading...")
  /\ button_state (exec hideLoadingView sample_world) = Some (false, "Fetch Data").
Proof.
  pose proof (loading_view_button sample_world) as (_ & _ & Hshow & Hhide & _).
  split; [reflexivity|]. split; [exact (Hshow eq_refl) | exact (Hhide eq_refl)].
Defined.

(** * Further properties of the script *)

(** ** What is kept by the code built from the primitives *)

#[local] Instance same_preorder {A} (f : World -> A) : PreOrder (same f).
Proof.
  split.
  - intros w. reflexivity.
  - intros w1 w2 w3 H1 H2. unfold same in *. congruence.
Qed.

#[local] Instance heap_grows_preorder : PreOrder heap_grows.
Proof.
  split.
  - intros w. exists []. symmetry. apply app_nil_r.
  - intros w1 w2 w3 [n1 H1] [n2 H2]. exists (n1 ++ n2)%list.
    rewrite H2, H1. symmetry. apply app_assoc.
Qed.

Section Closure.
Context (R : World -> World -> Prop) `{!PreOrder R}.
Hypothesis R_axios : forall u, keeps R (axios_get u).
Hypothesis R_random : forall lower upper, keeps R (baseRandom lower upper).
Hypothesis R_clue : forall c, keeps R (new_clue c).
Hypothesis R_console : forall e, keeps R (console_error e).
Hypothesis R_update : forall a f, keeps R (update_element a f).
Hypothesis R_create : forall tag, keeps R (createElement tag).
Hypothesis R_categories : forall cats, keeps R (modify (set_categories cats)).

Lemma closure_shuffle_from (steps index : nat) (array : list JsVal) :
  keeps R (shuffle_from steps index array).
Proof.
  revert index array. induction steps as [|steps IH]; intros index array;
    cbn [shuffle_from]; keeps_auto.
Qed.

Lemma closure_getCategoryIds : keeps R getCategoryIds.
Proof.
  pose proof closure_shuffle_from.
  unfold getCategoryIds, sampleSize, shuffleSelf. keeps_auto.
Qed.

Lemma closure_getCategory (catId : JsVal) : keeps R (getCategory catId).
Proof. unfold getCategory. keeps_auto. Qed.

Lemma closure_fetchCategories : keeps R fetchCategories.
Proof.
  unfold fetchCategories.
  apply keeps_bind; [tc_solve | apply closure_getCategoryIds |].
  intros ids. apply keeps_Promise_all; [tc_solve|].
  induction ids; constructor; [apply closure_getCategory | assumption].
Qed.

Lemma closure_buildGrid : keeps R buildGrid.
Proof. unfold buildGrid. keeps_auto. Qed.

Lemma closure_showLoadingView : keeps R showLoadingView.
Proof. unfold showLoadingView. keeps_auto. Qed.

Lemma closure_hideLoadingView : keeps R hideLoadingView.
Proof. unfold hideLoadingView. keeps_auto. Qed.

Lemma closure_fillTable : keeps R fillTable.
Proof.
  intros w. unfold exec. rewrite fillTable_unfold.
  revert w. fold (keeps R (A := unit)).
  change (keeps R (try_catch (cats <- fetchCategories;
                              modify (set_categories cats);; buildGrid)
                             (fun error => console_error error))).
  pose proof closure_fetchCategories. pose proof closure_buildGrid.
  keeps_auto.
Qed.

Lemma closure_setupAndStart : keeps R setupAndStart.
Proof.
  intros w. unfold exec. rewrite setupAndStart_unfold.
  revert w.
  change (keeps R (try_catch (hideLoadingView;; cats <- fetchCategories; fillTable)
                             (fun error => console_error error))).
  pose proof closure_fetchCategories. pose proof closure_fillTable.
  pose proof closure_hideLoadingView.
  keeps_auto.
Qed.

Lemma closure_startGame : keeps R startGame.
Proof.
  pose proof closure_showLoadingView. pose proof closure_setupAndStart.
  unfold startGame. keeps_auto.
Qed.

End Closure.

Section ClosureClicks.
Context (R : World -> World -> Prop) `{!PreOrder R}.
Hypothesis R_console : forall e, keeps R (console_error e).
Hypothesis R_update : forall a f, keeps R (update_element a f).
Hypothesis R_showing : forall f, keeps R (modify (set_heap f)).


End ClosureClicks.

(** The primitives are written out far enough for a component they do not
    write to be seen unchanged. *)
Ltac leaf :=
  solve [ intros; intros ?w; unfold exec, axios_get, baseRandom, new_clue,
            console_error, update_element, createElement, modify, same,
            heap_grows;
          cbn; repeat case_match;
          first [ reflexivity
                | eexists; symmetry; apply app_nil_r
                | eexists; reflexivity ] ].

(** ** What a game start leaves alone *)

Lemma startGame_heap_grows : keeps heap_grows startGame.
Proof. apply closure_startGame; first [tc_solve | leaf]. Qed.

Lemma fillTable_heap_grows : keeps heap_grows fillTable.
Proof. apply closure_fillTable; first [tc_solve | leaf]. Qed.

(** X1.  A game start, and [fillTable] alone, never alter or remove a clue
    record that exists: whatever stage a clue of an earlier game has
    reached, it keeps it, with its question and its answer; new games only
    add records. *)
Theorem startGame_keeps_clues (w : World) (a : addr) (c : Clue) :
  heap w !! a = Some c ->
  heap (exec startGame w) !! a = Some c /\ heap (exec fillTable w) !! a = Some c.
Proof.
  intros Ha. destruct (startGame_heap_grows w) as [n1 H1].
  destruct (fillTable_heap_grows w) as [n2 H2]. rewrite H1, H2.
  split; apply lookup_app_l_Some; exact Ha.
Qed.


(** ** Exceptions *)

Lemma setupAndStart_returns (w : World) : eval setupAndStart w = Ok tt.
Proof.
  unfold eval, setupAndStart, try_catch.
  match goal with |- fst (let (r, w') := ?m in _) = _ => destruct m as [[[]|e] w1] end;
    reflexivity.
Qed.

Lemma showLoadingView_throws_TypeError (w : World) (e : Error) :
  eval showLoadingView w = Throw e -> e = TypeError.
Proof.
  unfold showLoadingView, eval. rewrite select_run.
  destruct (jeopardyTable (page w)) as [t|]; [|intros [= <-]; reflexivity].
  destruct (dom w !! t); [|intros [= <-]; reflexivity].
  rewrite update_run, select_run. cbn [page dom set_dom].
  destruct (loadingSpinner (page w)) as [s|]; [|intros [= <-]; reflexivity].
  destruct (alter (set_childNodes []) t (dom w) !! s); [|intros [= <-]; reflexivity].
  rewrite update_run, select_run. cbn [page dom set_dom].
  destruct (fetchDataButton (page w)) as [b|]; [|intros [= <-]; reflexivity].
  destruct (alter (set_display "block") s (alter (set_childNodes []) t (dom w)) !! b);
    [|intros [= <-]; reflexivity].
  discriminate.
Qed.

(** X3.  [fillTable] and [setupAndStart] never throw: whatever fails in
    them is logged and swallowed.  [startGame] throws exactly when
    [showLoadingView] does, which is a TypeError for an element the page
    lacks; then [setupAndStart] is not run: no request is sent and nothing
    is logged. *)
Theorem startGame_exceptions (w : World) :
  eval fillTable w = Ok tt
  /\ eval setupAndStart w = Ok tt
  /\ eval startGame w = eval showLoadingView w
  /\ (forall e, eval startGame w = Throw e ->
                e = TypeError /\ exec startGame w = exec showLoadingView w /\
                sent (exec startGame w) = sent w /\
                console (exec startGame w) = console w).
Proof.
  split; [apply fillTable_returns|]. split; [apply setupAndStart_returns|].
  assert (Hs : sent (exec showLoadingView w) = sent w)
    by (apply (closure_showLoadingView (same sent)); first [tc_solve | leaf]).
  assert (Hc : console (exec showLoadingView w) = console w)
    by (apply (closure_showLoadingView (same console)); first [tc_solve | leaf]).
  pose proof (showLoadingView_throws_TypeError w) as Ht.
  unfold eval, exec, startGame, bind in *.
  destruct (showLoadingView w) as [[[]|e] w1]; cbn [fst snd] in *.
  - pose proof (setupAndStart_returns w1) as Hr. unfold eval in Hr.
    split; [exact Hr|]. intros e He. rewrite Hr in He. discriminate.
  - split; [reflexivity|]. intros e' [= <-]. auto.
Qed.

(** ** The request for the identifiers *)

Lemma ids_mapM_throw (data : list JsVal) (w : World) :
  forallb (fun c => negb (nullish c)) data = false ->
  mapM (fun category => lift (getProp category "id")) data w = (Throw TypeError, w).
Proof.
  induction data as [|c data IH]; intros Hall; [discriminate|].
  cbn [forallb] in Hall. cbn [mapM]. unfold bind at 1, lift at 1.
  destruct (nullish c) eqn:Hn.
  - destruct c; try discriminate; reflexivity.
  - assert (Hp : getProp c "id" = Ok (prop c "id")).
    { unfold prop. destruct c; try discriminate; reflexivity. }
    rewrite Hp. unfold bind at 1. rewrite (IH Hall). reflexivity.
Qed.

(** [getCategoryIds], step by step. *)
Lemma getCategoryIds_run (w : World) :
  getCategoryIds w =
  let w1 := set_sent (fun l => (l ++ [mkRequest ids_url (dom w)])%list) w in
  match network w (length (sent w)) ids_url with
  | Rejected => (Throw NetworkError, w1)
  | Resolved (JArr entries) =>
      if forallb (fun c => negb (nullish c)) entries
      then sampleSize (map (fun c => prop c "id") entries) NUM_CATEGORIES w1
      else (Throw TypeError, w1)
  | Resolved _ => (Throw TypeError, w1)
  end.
Proof.
  unfold getCategoryIds. fold ids_url. unfold bind at 1, axios_get.
  destruct (network w (length (sent w)) ids_url) as [|data]; [reflexivity|].
  cbn zeta. unfold bind at 1, array_map.
  destruct data as [| | | | |entries|]; try reflexivity.
  destruct (forallb (fun c => negb (nullish c)) entries) eqn:Hall.
  - rewrite ids_mapM by assumption. reflexivity.
  - rewrite ids_mapM_throw by assumption. reflexivity.
Qed.

Lemma shuffle_from_drawn (steps index : nat) (array : list JsVal) (w : World) :
  drawn (exec (shuffle_from steps index array) w) = drawn w + steps.
Proof.
  revert index array w. induction steps as [|steps IH]; intros index array w.
  - cbn. lia.
  - cbn [shuffle_from]. unfold exec, bind, baseRandom in *. cbn [fst snd].
    rewrite IH. cbn. lia.
Qed.

Lemma sampleSize_drawn (pool : list JsVal) (n : nat) (w : World) :
  drawn (exec (sampleSize pool n) w) = drawn w + Nat.min n (length pool).
Proof.
  pose proof (shuffle_from_drawn (Nat.min n (length pool)) 0 pool w) as H.
  unfold sampleSize, shuffleSelf, exec, bind, ret in *.
  destruct (shuffle_from (Nat.min n (length pool)) 0 pool w) as [[l|e] w1]; exact H.
Qed.

Lemma sampleSize_returns (pool : list JsVal) (n : nat) (w : World) :
  is_ok (eval (sampleSize pool n) w) = true.
Proof.
  destruct (sampleSize_positions pool n w) as (positions & -> & _). reflexivity.
Qed.

(** X4.  [getCategoryIds] hands on the failure of its request as it is (it
    does not wrap it, unlike [getCategory]): a rejected request is thrown
    as such, a response that is not an array, or an array with a [null]
    entry, is a TypeError; any other response gives a sample.  When it
    fails no random number has been drawn. *)
Theorem getCategoryIds_failures (w : World) :
  (network w (length (sent w)) ids_url = Rejected ->
   eval getCategoryIds w = Throw NetworkError)
  /\ (forall data, network w (length (sent w)) ids_url = Resolved data ->
                   well_formed_pool data = false ->
                   eval getCategoryIds w = Throw TypeError)
  /\ (forall data, network w (length (sent w)) ids_url = Resolved data ->
                   well_formed_pool data = true ->
                   is_ok (eval getCategoryIds w) = true)
  /\ (is_ok (eval getCategoryIds w) = false ->
      drawn (exec getCategoryIds w) = drawn w).
Proof.
  unfold eval, exec. rewrite getCategoryIds_run. cbn zeta.
  destruct (network w (length (sent w)) ids_url) as [|data].
  - repeat split; try discriminate; reflexivity.
  - split; [discriminate|].
    destruct data as [| | | | |entries|];
      try (split; [intros ? [= <-] _; reflexivity|];
           split; [intros ? [= <-]; discriminate | reflexivity]).
    cbn [well_formed_pool].
    destruct (forallb (fun c => negb (nullish c)) entries) eqn:Hall.
    + split; [intros ? [= <-]; cbn; congruence|].
      split; [intros ? [= <-] _; apply sampleSize_returns|].
      intros H.
      pose proof (sampleSize_returns (map (fun c => prop c "id") entries)
                    NUM_CATEGORIES
                    (set_sent (fun l => (l ++ [mkRequest ids_url (dom w)])%list) w))
        as Hr.
      unfold eval in Hr. rewrite Hr in H. discriminate.
    + split; [intros ? [= <-] _; reflexivity|].
      split; [intros ? [= <-]; cbn; congruence | reflexivity].
Qed.

Lemma getCategoryIds_ok_inv (w : World) (ids : list JsVal) :
  eval getCategoryIds w = Ok ids ->
  exists data,
    network w (length (sent w)) ids_url = Resolved data /\
    length ids = Nat.min NUM_CATEGORIES (pool_size data) /\
    drawn (exec getCategoryIds w) = drawn w + length ids.
Proof.
  unfold eval, exec. rewrite getCategoryIds_run. cbn zeta.
  destruct (network w (length (sent w)) ids_url) as [|data]; [discriminate|].
  destruct data as [| | | | |entries|]; try discriminate.
  destruct (forallb (fun c => negb (nullish c)) entries); [|discriminate].
  intros Hids. exists (JArr entries). split; [reflexivity|].
  set (pool := map (fun c => prop c "id") entries) in *.
  set (w1 := set_sent _ w) in *.
  destruct (sampleSize_positions pool NUM_CATEGORIES w1)
    as (positions & Hev & Hlen & _).
  unfold eval in Hev. rewrite Hids in Hev. injection Hev as ->.
  pose proof (sampleSize_drawn pool NUM_CATEGORIES w1) as Hd. unfold exec in Hd.
  rewrite length_map, Hlen. unfold pool in *. rewrite length_map in *.
  split; [reflexivity|]. rewrite Hd. reflexivity.
Qed.

(** X5.  Whatever its outcome, [getCategoryIds] sends exactly one request,
    to the address of the categories, logs nothing and touches neither the
    page, nor the clues, nor the [categories] variable; when it returns it
    has drawn one random number for each identifier it returns, that is
    as many as the pool allows up to NUM_CATEGORIES. *)
Theorem getCategoryIds_effects (w : World) :
  urls (exec getCategoryIds w) = (urls w ++ [ids_url])%list
  /\ console (exec getCategoryIds w) = console w
  /\ dom (exec getCategoryIds w) = dom w
  /\ heap (exec getCategoryIds w) = heap w
  /\ (forall ids, eval getCategoryIds w = Ok ids ->
        exists data,
          network w (length (sent w)) ids_url = Resolved data /\
          length ids = Nat.min NUM_CATEGORIES (pool_size data) /\
          drawn (exec getCategoryIds w) = drawn w + length ids).
Proof.
  split; [apply getCategoryIds_urls|].
  split; [apply (closure_getCategoryIds (same console)); first [tc_solve | leaf]|].
  split; [apply (closure_getCategoryIds (same dom)); first [tc_solve | leaf]|].
  split; [apply (closure_getCategoryIds (same heap)); first [tc_solve | leaf]|].
  intros ids. apply getCategoryIds_ok_inv.
Qed.

(** ** The effects of fetching a category *)

Lemma getCategory_heap_grows (catId : JsVal) : keeps heap_grows (getCategory catId).
Proof. apply closure_getCategory; first [tc_solve | leaf]. Qed.

(** The error that makes [getCategory] fail. *)
Lemma getCategory_console (catId : JsVal) (w : World) :
  console (exec (getCategory catId) w) =
  match eval (getCategory catId) w with
  | Ok _ => console w
  | Throw _ =>
      (console w ++ [match response w catId with
                     | Throw e => e
                     | Ok _ => TypeError
                     end])%list
  end.
Proof.
  unfold exec, eval, getCategory, try_catch.
  match goal with
  | |- console (snd (let (r, w') := ?body w in _)) = _ => set (m := body)
  end.
  assert (Hc : console (snd (m w)) = console w).
  { assert (Hk : keeps (same console) m)
      by (unfold m; keeps_auto; leaf).
    exact (Hk w). }
  assert (He : forall e, fst (m w) = Throw e ->
                         e = match response w catId with
                             | Throw e => e
                             | Ok _ => TypeError
                             end).
  { unfold m, response. unfold bind at 1, lift at 1.
    destruct (ToString catId) as [id|e0]; [|intros e [= <-]; reflexivity].
    fold (clues_url id). unfold bind at 1, axios_get.
    destruct (network w (length (sent w)) (clues_url id)) as [|data];
      [intros e [= <-]; reflexivity|].
    unfold bind at 1, lift at 1.
    destruct (getProp data "title") as [t|e0] eqn:Ht.
    2:{ intros e [= <-]. destruct data; try discriminate; cbn in Ht; congruence. }
    unfold bind at 1, lift at 1.
    destruct (getProp data "clues") as [raw|e0] eqn:Hcl.
    2:{ destruct data; discriminate. }
    destruct raw as [| | | | |items|]; try (intros e [= <-]; reflexivity).
    unfold bind at 1, array_map.
    destruct (forallb (fun item => negb (nullish item)) items) eqn:Hall.
    - rewrite clues_mapM_ok by assumption. discriminate.
    - match goal with
      | |- context [mapM ?f items ?w1] =>
          pose proof (clues_mapM_throw items w1 Hall) as Hth; unfold eval in Hth;
          destruct (mapM f items w1) as [[l|e1] w2]
      end; cbn in *; [discriminate|]. intros e [= <-]. congruence. }
  destruct (m w) as [[c|e] w1]; cbn [fst snd] in *; [exact Hc|].
  cbn. rewrite Hc, <- (He e eq_refl). reflexivity.
Qed.

(** X6.  Whatever its outcome, [getCategory] touches neither the page nor
    the [categories] variable nor any clue record that exists, and it
    sends one request, to the address of the clues of its category (none
    when the identifier cannot be written into an address).  When it
    returns it has logged nothing; when it throws it has logged one error,
    the one that made it fail: that of the remote call, or a TypeError for
    a response of the wrong shape. *)
Theorem getCategory_effects (w : World) (catId : JsVal) :
  urls (exec (getCategory catId) w) = (urls w ++ category_urls [catId])%list
  /\ dom (exec (getCategory catId) w) = dom w
  /\ categories (exec (getCategory catId) w) = categories w
  /\ (forall a c, heap w !! a = Some c ->
                  heap (exec (getCategory catId) w) !! a = Some c)
  /\ (is_ok (eval (getCategory catId) w) = true ->
      console (exec (getCategory catId) w) = console w)
  /\ (is_ok (eval (getCategory catId) w) = false ->
      console (exec (getCategory catId) w)
      = (console w ++ [match response w catId with
                       | Throw e => e
                       | Ok _ => TypeError
                       end])%list).
Proof.
  split; [apply getCategory_urls|].
  destruct (getCategory_fetch catId w) as (Hd & Hc & _).
  split; [exact Hd|]. split; [exact Hc|]. split.
  - intros a c Ha. destruct (getCategory_heap_grows catId w) as [new ->].
    apply lookup_app_l_Some, Ha.
  - rewrite getCategory_console.
    destruct (eval (getCategory catId) w); split; intros H;
      first [reflexivity | discriminate].
Qed.

(** ** The clues of a new board *)

Lemma getCategory_fresh (catId : JsVal) (w : World) (cat : Category) :
  eval (getCategory catId) w = Ok cat ->
  exists items,
    clues cat = seq (length (heap w)) (length items) /\
    heap (exec (getCategory catId) w) = (heap w ++ map clue_of items)%list.
Proof.
  intros Hok. pose proof (getCategory_eval catId w) as He. rewrite Hok in He.
  destruct (response w catId) as [data|e0] eqn:Hr; [|discriminate].
  destruct (clue_items data) as [items|] eqn:Hc; [|discriminate].
  destruct (forallb (fun item => negb (nullish item)) items) eqn:Hall;
    [|discriminate].
  injection He as ->. exists items. split; [reflexivity|].
  apply (getCategory_heap catId w data items Hr Hc Hall).
Qed.

Lemma lookup_clue_of (h : list Clue) (items : list JsVal) (a : addr) :
  length h <= a < length h + length items ->
  exists c, (h ++ map clue_of items)%list !! a = Some c /\ showing c = JNull.
Proof.
  intros Ha. rewrite lookup_app_r by lia.
  destruct (lookup_lt_is_Some_2 items (a - length h)) as [item Hi]; [lia|].
  exists (clue_of item). split; [|reflexivity].
  change (map clue_of items) with (clue_of <$> items).
  rewrite list_lookup_fmap, Hi. reflexivity.
Qed.

(** The categories that a list of promises of [getCategory] gives when all
    of them are fulfilled. *)
Lemma settle_all_fresh (ids : list JsVal) :
  forall (w : World) (rs : list (Result Category)) (cats : list Category),
    eval (settle_all (map getCategory ids)) w = Ok rs ->
    sequence_result rs = Ok cats ->
    length cats = length ids /\
    heap_grows w (exec (settle_all (map getCategory ids)) w) /\
    NoDup (all_clues cats) /\
    Forall (fun a =>
              length (heap w) <= a /\
              exists c, heap (exec (settle_all (map getCategory ids)) w) !! a = Some c /\
                        showing c = JNull)
           (all_clues cats).
Proof.
  induction ids as [|catId ids IH]; intros w rs cats Hrs Hseq.
  - cbn in Hrs. injection Hrs as <-. cbn in Hseq. injection Hseq as <-.
    cbn. repeat split; [reflexivity | constructor | constructor].
  - pose proof (getCategory_fresh catId w) as Hfresh.
    unfold eval, exec in *. cbn [map settle_all] in *.
    destruct (getCategory catId w) as [r w1]. cbn [fst snd] in Hfresh.
    specialize (IH w1).
    destruct (settle_all (map getCategory ids) w1) as [[rs'|e] w2];
      cbn [fst snd] in *; [|discriminate].
    injection Hrs as <-. cbn [sequence_result] in Hseq.
    destruct r as [cat|e]; [|discriminate].
    destruct (sequence_result rs') as [cats'|e] eqn:Hseq'; [|discriminate].
    injection Hseq as <-.
    destruct (IH rs' cats' eq_refl Hseq') as (Hlen & [new Hgrow] & Hnd & Hall).
    destruct (Hfresh cat eq_refl) as (items & Hclues & Hheap).
    assert (Hl1 : length (heap w1) = length (heap w) + length items).
    { rewrite Hheap, length_app, length_map. reflexivity. }
    split; [cbn; congruence|]. split.
    { exists (map clue_of items ++ new)%list.
      rewrite Hgrow, Hheap, <- app_assoc. reflexivity. }
    unfold all_clues in *. cbn [map concat]. split.
    + apply NoDup_app. split; [rewrite Hclues; apply NoDup_seq|]. split; [|exact Hnd].
      intros a Ha Ha'. rewrite Hclues in Ha. apply elem_of_seq in Ha.
      rewrite Forall_forall in Hall. apply Hall in Ha' as [Hge _]. lia.
    + apply Forall_app. split.
      * rewrite Hclues. apply Forall_forall. intros a Ha.
        apply elem_of_seq in Ha. split; [lia|].
        destruct (lookup_clue_of (heap w) items a) as (c & Hc & Hs); [lia|].
        exists c. split; [|exact Hs]. rewrite Hgrow, Hheap.
        apply lookup_app_l_Some, Hc.
      * eapply Forall_impl; [exact Hall|]. cbn. intros a [Hge Hc].
        split; [lia | exact Hc].
Qed.

Lemma fillTable_heap_after_fetch (w : World) :
  heap (exec fillTable w) = heap (exec fetchCategories w).
Proof.
  unfold exec. rewrite fillTable_unfold. unfold try_catch, bind.
  destruct (fetchCategories w) as [[cats|e] w1]; cbn [snd]; [|reflexivity].
  pose proof (buildGrid_render (set_categories cats w1)) as (_ & Hh & _).
  unfold exec, modify in *.
  destruct (buildGrid (set_categories cats w1)) as [[[]|e] w2]; exact Hh.
Qed.

(** X7.  When its fetches succeed, [fillTable] leaves in [categories] one
    category for each identifier of the sample, so NUM_CATEGORIES at most,
    and every clue of every category is a record made by this call: none
    existed before, no two categories (and no two places of one category)
    share a record, and every one of them is hidden. *)
Theorem fillTable_fresh_clues (w : World) (cats : list Category) :
  eval fetchCategories w = Ok cats ->
  categories (exec fillTable w) = cats
  /\ (exists ids, eval getCategoryIds w = Ok ids /\ length cats = length ids)
  /\ length cats <= NUM_CATEGORIES
  /\ NoDup (all_clues cats)
  /\ Forall (fun a =>
               length (heap w) <= a /\
               exists c, heap (exec fillTable w) !! a = Some c /\ showing c = JNull)
            (all_clues cats).
Proof.
  intros Hfetch.
  split; [apply (proj2 (fillTable_after_fetch w)), Hfetch|].
  rewrite fillTable_heap_after_fetch.
  pose proof (getCategoryIds_ok_inv w) as Hinv.
  assert (Hh0 : heap (exec getCategoryIds w) = heap w)
    by (apply (closure_getCategoryIds (same heap)); first [tc_solve | leaf]).
  unfold eval, exec, fetchCategories, bind in *.
  destruct (getCategoryIds w) as [[ids|e] w1]; cbn [fst snd] in *; [|discriminate].
  destruct (Hinv ids eq_refl) as (data & _ & Hmin & _).
  unfold Promise_all, bind, lift in *.
  pose proof (settle_all_fresh ids w1) as Hs. unfold eval, exec in Hs.
  destruct (settle_all (map getCategory ids) w1) as [[rs|e] w2];
    cbn [fst snd] in *; [|discriminate].
  destruct (Hs rs cats eq_refl Hfetch) as (Hlen & _ & Hnd & Hall).
  rewrite Hh0 in Hall.
  split; [exists ids; auto|]. split; [lia|]. split; assumption.
Qed.

(** ** The loading view and the board *)

Lemma empty_at_display (tag : string) (t s : addr) (v : string) (d : list Element) :
  empty_at tag t d -> empty_at tag t (alter (set_display v) s d).
Proof.
  intros (e & He & Hk & Ht). destruct (decide (s = t)) as [-> | Hne].
  - exists (set_display v e). rewrite list_lookup_alter_eq, He. auto.
  - exists e. rewrite list_lookup_alter_ne by assumption. auto.
Qed.

Lemma empty_at_other (tag : string) (t b : addr) (f : Element -> Element)
    (d : list Element) :
  b <> t -> empty_at tag t d -> empty_at tag t (alter f b d).
Proof.
  intros Hne (e & He & Hk & Ht). exists e.
  rewrite list_lookup_alter_ne by assumption. auto.
Qed.

(** X8.  [showLoadingView] empties the table as soon as it has found it:
    the table is empty afterwards also when the function goes on to throw
    for a missing spinner or button.  It creates and removes no element,
    leaves every element other than the table, the spinner and the button
    as it is, and when it completes the spinner is displayed as a block. *)
Theorem showLoadingView_wipes (w : World) (t : addr) (et : Element) :
  jeopardyTable (page w) = Some t -> dom w !! t = Some et ->
  fetchDataButton (page w) <> Some t ->
  empty_at (tagName et) t (dom (exec showLoadingView w))
  /\ length (dom (exec showLoadingView w)) = length (dom w)
  /\ (forall a, unselected (page w) a ->
                dom (exec showLoadingView w) !! a = dom w !! a)
  /\ (eval showLoadingView w = Ok tt ->
      exists s es, loadingSpinner (page w) = Some s /\
                   dom (exec showLoadingView w) !! s = Some es /\
                   display es = "block").
Proof.
  intros Ht Het Hbt.
  set (Q := fun d' : list Element =>
              empty_at (tagName et) t d' /\ length d' = length (dom w) /\
              (forall a, unselected (page w) a -> d' !! a = dom w !! a)).
  set (d1 := alter (set_childNodes []) t (dom w)).
  assert (Q1 : Q d1).
  { split; [|split].
    - exists (set_childNodes [] et). unfold d1.
      rewrite list_lookup_alter_eq, Het. auto.
    - apply length_alter.
    - intros a (Ha & _). unfold d1. apply list_lookup_alter_ne. congruence. }
  unfold showLoadingView, eval, exec. rewrite select_run, Ht, Het.
  rewrite update_run, select_run. cbn [page dom set_dom]. fold d1.
  destruct (loadingSpinner (page w)) as [s|] eqn:Hs.
  2:{ destruct Q1 as (? & ? & ?). cbn [fst snd dom set_dom].
      split; [assumption|]. split; [assumption|]. split; [assumption|].
      intros [=]. }
  destruct (d1 !! s) as [es1|] eqn:Hes1.
  2:{ destruct Q1 as (? & ? & ?). cbn [fst snd dom set_dom].
      split; [assumption|]. split; [assumption|]. split; [assumption|].
      intros [=]. }
  set (d2 := alter (set_display "block") s d1).
  assert (Q2 : Q d2).
  { destruct Q1 as (Q1a & Q1b & Q1c). split; [|split].
    - apply empty_at_display, Q1a.
    - unfold d2. rewrite length_alter. exact Q1b.
    - intros a Ha. unfold d2. rewrite list_lookup_alter_ne; [apply Q1c, Ha|].
      destruct Ha as (_ & Ha & _). congruence. }
  rewrite update_run, select_run. cbn [page dom set_dom]. fold d1. fold d2.
  destruct (fetchDataButton (page w)) as [b|] eqn:Hb.
  2:{ destruct Q2 as (? & ? & ?). cbn [fst snd dom set_dom].
      split; [assumption|]. split; [assumption|]. split; [assumption|].
      intros [=]. }
  destruct (d2 !! b) as [eb2|] eqn:Heb2.
  2:{ destruct Q2 as (? & ? & ?). cbn [fst snd dom set_dom].
      split; [assumption|]. split; [assumption|]. split; [assumption|].
      intros [=]. }
  assert (Hne : b <> t) by congruence.
  destruct Q2 as (Q2a & Q2b & Q2c).
  unfold bind, update_element, modify, setTextContent, lift. cbn.
  split; [|split; [|split]].
  - do 2 (apply empty_at_other; [exact Hne|]). exact Q2a.
  - rewrite !length_alter. reflexivity.
  - intros a Ha.
    assert (b <> a) by (destruct Ha as (_ & _ & Ha); congruence).
    do 2 (rewrite list_lookup_alter_ne by assumption). apply Q2c, Ha.
  - intros _. 
    assert (exists es, alter (set_childNodes (text_nodes "Loading...")) b
                         (alter (set_disabled true) b d2) !! s = Some es /\
                       display es = "block") as (es & Hes & Hd).
    { destruct (decide (b = s)) as [-> | Hbs].
      - rewrite !list_lookup_alter_eq. unfold d2.
        rewrite list_lookup_alter_eq, Hes1. eexists. split; reflexivity.
      - rewrite !list_lookup_alter_ne by assumption. unfold d2.
        rewrite list_lookup_alter_eq, Hes1. eexists. split; reflexivity. }
    exists s, es. auto.
Qed.

(** X9.  [hideLoadingView] creates and removes no element and writes to
    the spinner and the button only: every other element, the table and
    the cells of a board among them, is afterwards what it was, and the
    spinner keeps its content. *)
Theorem hideLoadingView_keeps_board (w : World) :
  length (dom (exec hideLoadingView w)) = length (dom w)
  /\ (forall a, loadingSpinner (page w) <> Some a ->
                fetchDataButton (page w) <> Some a ->
                dom (exec hideLoadingView w) !! a = dom w !! a)
  /\ (forall a, fetchDataButton (page w) <> Some a ->
                (childNodes <$> dom (exec hideLoadingView w) !! a)
                = (childNodes <$> dom w !! a)).
Proof.
  set (Q := fun d' : list Element =>
              length d' = length (dom w) /\
              (forall a, loadingSpinner (page w) <> Some a ->
                         fetchDataButton (page w) <> Some a ->
                         d' !! a = dom w !! a) /\
              (forall a, fetchDataButton (page w) <> Some a ->
                         (childNodes <$> d' !! a) = (childNodes <$> dom w !! a))).
  assert (Q0 : Q (dom w)) by (repeat split).
  unfold hideLoadingView, exec. rewrite select_run.
  destruct (loadingSpinner (page w)) as [s|] eqn:Hs; [|exact Q0].
  destruct (dom w !! s) as [es|] eqn:Hes; [|exact Q0].
  set (d1 := alter (set_display "none") s (dom w)).
  assert (Q1 : Q d1).
  { split; [apply length_alter|]. split.
    - intros a Ha _. unfold d1. apply list_lookup_alter_ne. congruence.
    - intros a _. unfold d1. destruct (decide (s = a)) as [-> | Hne].
      + rewrite list_lookup_alter_eq. destruct (dom w !! a); reflexivity.
      + rewrite list_lookup_alter_ne by assumption. reflexivity. }
  rewrite update_run, select_run. cbn [page dom set_dom]. fold d1.
  destruct (fetchDataButton (page w)) as [b|] eqn:Hb; [|exact Q1].
  destruct (d1 !! b) as [eb|] eqn:Heb; [|exact Q1].
  destruct Q1 as (Q1a & Q1b & Q1c).
  unfold bind, update_element, modify, setTextContent, lift. cbn.
  split; [|split].
  - rewrite !length_alter. reflexivity.
  - intros a Has Hab. assert (b <> a) by congruence.
    do 2 (rewrite list_lookup_alter_ne by assumption). apply Q1b; assumption.
  - intros a Hab. assert (b <> a) by congruence.
    do 2 (rewrite list_lookup_alter_ne by assumption). apply Q1c; assumption.
Qed.

(** ** Listeners *)

Lemma forEach_listeners_once (l : list addr) (a : addr) (w : World) :
  List.NoDup l -> In a l ->
  dom (exec (forEach
               (fun clue =>
                  update_element clue
                    (fun e => set_clickListeners (S (clickListeners e)) e)) l) w) !! a
  = (fun e => set_clickListeners (S (clickListeners e)) e) <$> dom w !! a.
Proof.
  revert w. induction l as [|x l IH]; intros w Hnd Hin; [destruct Hin|].
  apply List.NoDup_cons_iff in Hnd as [Hx Hnd].
  cbn [forEach]. unfold exec in *. rewrite update_run.
  destruct Hin as [-> | Hin].
  - pose proof (forEach_listeners_other l a
                  (set_dom (alter (fun e => set_clickListeners (S (clickListeners e)) e) a) w)
                  Hx) as Ho.
    unfold exec in Ho. rewrite Ho. cbn [dom set_dom].
    apply list_lookup_alter_eq.
  - rewrite (IH _ Hnd Hin). cbn [dom set_dom].
    rewrite list_lookup_alter_ne; [reflexivity|]. intros ->. contradiction.
Qed.

(** X10.  [addClueClickHandler] returns having given one more click
    listener to every element of class "clue" and to no other: each
    element is afterwards what it was but for that count, so that a
    second run gives such an element a second listener. *)
Theorem addClueClickHandler_listeners (w : World) (a : addr) (e : Element) :
  dom w !! a = Some e ->
  eval addClueClickHandler w = Ok tt
  /\ dom (exec addClueClickHandler w) !! a
     = Some (if has_class "clue" e
             then set_clickListeners (S (clickListeners e)) e
             else e)
  /\ (clickListeners <$> dom (exec addClueClickHandler (exec addClueClickHandler w)) !! a)
     = Some (if has_class "clue" e
             then S (S (clickListeners e))
             else clickListeners e).
Proof.
  assert (Hret : forall w0, eval addClueClickHandler w0 = Ok tt).
  { intros w0. unfold eval, addClueClickHandler, querySelectorAll_clue, bind, gets.
    generalize (List.filter (fun a0 => match dom w0 !! a0 with
                                       | Some e0 => has_class "clue" e0
                                       | None => false
                                       end) (seq 0 (length (dom w0)))).
    intros l. revert w0. induction l as [|x l IH]; intros w1; [reflexivity|].
    cbn [forEach]. rewrite update_run. apply IH. }
  assert (Hone : forall w0 e0,
             dom w0 !! a = Some e0 ->
             dom (exec addClueClickHandler w0) !! a
             = Some (if has_class "clue" e0
                     then set_clickListeners (S (clickListeners e0)) e0
                     else e0)).
  { intros w0 e0 He0. destruct (has_class "clue" e0) eqn:Hc.
    - change (exec addClueClickHandler w0)
        with (exec (forEach
                      (fun clue =>
                         update_element clue
                           (fun e => set_clickListeners (S (clickListeners e)) e))
                      (List.filter (fun a => match dom w0 !! a with
                                             | Some e => has_class "clue" e
                                             | None => false
                                             end)
                                   (seq 0 (length (dom w0))))) w0).
      rewrite forEach_listeners_once.
      + rewrite He0. reflexivity.
      + apply List.NoDup_filter, List.seq_NoDup.
      + apply filter_In. split.
        * apply in_seq. pose proof (lookup_lt_Some _ _ _ He0). lia.
        * rewrite He0. exact Hc.
    - apply addClueClickHandler_others; assumption. }
  intros He. split; [apply Hret|]. split; [apply Hone, He|].
  rewrite (Hone _ _ (Hone w e He)).
  destruct (has_class "clue" e) eqn:Hc.
  - change (has_class "clue" (set_clickListeners (S (clickListeners e)) e))
      with (has_class "clue" e).
    rewrite Hc. reflexivity.
  - rewrite Hc. reflexivity.
Qed.

(** ** What a call of [handleClick] writes *)

(** Either [handleClick] leaves the world as it is, or it returns having
    written the content of the target element and the stage of its clue. *)
Lemma handleClick_world (w : World) (evt : Value) :
  exec (handleClick evt) w = w \/
  exists b el a c s v,
    evt = VEvent (VElem b) /\ dom w !! b = Some el /\ clue el = Some a /\
    heap w !! a = Some c /\
    handleClick evt w =
      (Ok tt,
       set_heap (alter (fun c => mkClue (question c) (answer c) (JStr s)) a)
         (set_dom (alter (set_childNodes (text_nodes v)) b) w)).
Proof.
  unfold exec.
  cbv beta iota zeta delta
    [handleClick bind get_target get_clue getElement ret get_field throw
     put_textContent setTextContent lift put_showing modify update_element].
  destruct evt as [| s | e | t | a]; try (left; reflexivity).
  - destruct (dom w !! e) as [el|]; [|left; reflexivity].
    destruct (target el); left; reflexivity.
  - destruct t as [| s | e | t | a]; try (left; reflexivity).
    destruct (dom w !! e) as [el|] eqn:He; [|left; reflexivity].
    destruct (clue el) as [a|] eqn:Hc; [|left; reflexivity].
    destruct (heap w !! a) as [c|] eqn:Ha; [|left; reflexivity].
    destruct (is_null (showing c)) eqn:Hn.
    + rewrite Ha. destruct (ToDOMString (question c)) as [v|]; [|left; reflexivity].
      right. exists e, el, a, c, "question", v. repeat split; assumption.
    + destruct (is_string "question" (showing c)) eqn:Hq; [|left; reflexivity].
      rewrite Ha. destruct (ToDOMString (answer c)) as [v|]; [|left; reflexivity].
      right. exists e, el, a, c, "answer", v. repeat split; assumption.
Qed.

(** X11.  [handleClick] does all its reading before its first write: when
    it throws, whatever it was handed, nothing has changed. *)
Theorem handleClick_throws_unchanged (w : World) (evt : Value) (e : Error) :
  eval (handleClick evt) w = Throw e -> exec (handleClick evt) w = w.
Proof.
  intros Hthrow.
  destruct (handleClick_world w evt)
    as [H | (b & el & a & c & s & v & _ & _ & _ & _ & Hrun)]; [exact H|].
  unfold eval in Hthrow. rewrite Hrun in Hthrow. discriminate.
Qed.

(** X12.  A call of [handleClick] writes to nothing but the content of the
    element that is the target of the event and the [showing] of the clue
    that element carries: every other element and every other clue is
    what it was, no element loses its tag, class, clue or listeners, and
    neither the console, nor the request log, nor [categories] changes. *)
Theorem handleClick_writes (w : World) (evt : Value) :
  (forall b, evt <> VEvent (VElem b) ->
             dom (exec (handleClick evt) w) !! b = dom w !! b)
  /\ (forall b el, dom w !! b = Some el ->
        exists el', dom (exec (handleClick evt) w) !! b = Some el' /\
                    tagName el' = tagName el /\ same_marks el el')
  /\ (forall b el a, evt = VEvent (VElem b) -> dom w !! b = Some el ->
                     clue el <> Some a ->
                     heap (exec (handleClick evt) w) !! a = heap w !! a)
  /\ console (exec (handleClick evt) w) = console w
  /\ sent (exec (handleClick evt) w) = sent w
  /\ categories (exec (handleClick evt) w) = categories w.
Proof.
  destruct (handleClick_world w evt)
    as [-> | (b & el & a & c & s & v & -> & Hb & Hc & Ha & Hrun)].
  - repeat split; auto. intros b el Hb. exists el. repeat split; auto.
  - unfold exec. rewrite Hrun. cbn [snd dom heap console sent categories
                                      set_heap set_dom].
    split; [|split; [|split; [|repeat split]]].
    + intros b' Hne. apply list_lookup_alter_ne. congruence.
    + intros b' el' Hb'. destruct (decide (b = b')) as [<- | Hne].
      * rewrite list_lookup_alter_eq, Hb. rewrite Hb in Hb'. injection Hb' as <-.
        eexists. split; [reflexivity|]. repeat split.
      * rewrite list_lookup_alter_ne by assumption. exists el'.
        repeat split; auto.
    + intros b' el' a' [= <-] Hb' Hne. rewrite Hb in Hb'. injection Hb' as <-.
      apply list_lookup_alter_ne. congruence.
Qed.

(** X13.  The stage of a clue is kept in the clue record, not in the
    cell: when two elements carry the same hidden clue, a click on the
    first shows the question there, a click on the second then shows the
    answer there (the second element never shows the question), and a
    further click on the first changes nothing, the first still showing
    the question. *)
Theorem handleClick_shared_clue
    (w : World) (e1 e2 : addr) (el1 el2 : Element) (a : addr) (c : Clue)
    (q ans : string) :
  e1 <> e2 ->
  dom w !! e1 = Some el1 -> dom w !! e2 = Some el2 ->
  clue el1 = Some a -> clue el2 = Some a ->
  heap w !! a = Some c -> showing c = JNull ->
  ToDOMString (question c) = Ok q -> ToDOMString (answer c) = Ok ans ->
  let w1 := exec (handleClick (VEvent (VElem e1))) w in
  let w2 := exec (handleClick (VEvent (VElem e2))) w1 in
  displayed (dom w2) e1 = q
  /\ displayed (dom w2) e2 = ans
  /\ heap w2 !! a = Some (mkClue (question c) (answer c) (JStr "answer"))
  /\ exec (handleClick (VEvent (VElem e1))) w2 = w2.
Proof.
  intros Hne H1 H2 Hc1 Hc2 Ha Hs Hq Hans w1 w2.
  assert (Hw1 : w1 = set_heap (alter (fun c => mkClue (question c) (answer c)
                                                  (JStr "question")) a)
                       (set_dom (alter (set_childNodes (text_nodes q)) e1) w)).
  { unfold w1, exec. rewrite (handleClick_hidden w e1 el1 a c q); auto. }
  assert (H11 : dom w1 !! e1 = Some (set_childNodes (text_nodes q) el1)).
  { rewrite Hw1. cbn [dom set_heap set_dom]. rewrite list_lookup_alter_eq, H1.
    reflexivity. }
  assert (H12 : dom w1 !! e2 = Some el2).
  { rewrite Hw1. cbn [dom set_heap set_dom].
    rewrite list_lookup_alter_ne by assumption. exact H2. }
  assert (Ha1 : heap w1 !! a = Some (mkClue (question c) (answer c) (JStr "question"))).
  { rewrite Hw1. cbn [heap set_heap set_dom]. rewrite list_lookup_alter_eq, Ha.
    reflexivity. }
  assert (Hw2 : w2 = set_heap (alter (fun c => mkClue (question c) (answer c)
                                                  (JStr "answer")) a)
                       (set_dom (alter (set_childNodes (text_nodes ans)) e2) w1)).
  { unfold w2, exec.
    rewrite (handleClick_question w1 e2 el2 a _ ans H12 Hc2 Ha1); auto. }
  assert (H21 : dom w2 !! e1 = Some (set_childNodes (text_nodes q) el1)).
  { rewrite Hw2. cbn [dom set_heap set_dom].
    rewrite list_lookup_alter_ne by congruence. exact H11. }
  assert (H22 : dom w2 !! e2 = Some (set_childNodes (text_nodes ans) el2)).
  { rewrite Hw2. cbn [dom set_heap set_dom]. rewrite list_lookup_alter_eq, H12.
    reflexivity. }
  assert (Ha2 : heap w2 !! a = Some (mkClue (question c) (answer c) (JStr "answer"))).
  { rewrite Hw2. cbn [heap set_heap set_dom]. rewrite list_lookup_alter_eq, Ha1.
    reflexivity. }
  split; [exact (displayed_text_nodes _ _ _ _ H21 eq_refl)|].
  split; [exact (displayed_text_nodes _ _ _ _ H22 eq_refl)|].
  split; [exact Ha2|].
  unfold exec. rewrite (handleClick_answer w2 e1 _ a _ H21 Hc1 Ha2); reflexivity.
Qed.

(** ** A game start and the board *)






Lemma buildGrid_no_table (w : World) :
  ~ found jeopardyTable w -> buildGrid w = (Throw TypeError, w).
Proof.
  intros Hnot. unfold buildGrid. rewrite select_run.
  destruct (jeopardyTable (page w)) as [a|] eqn:Ha; [|reflexivity].
  destruct (dom w !! a) as [ea|] eqn:Hea; [|reflexivity].
  exfalso. apply Hnot. exists a, ea. auto.
Qed.

(** X15.  On a page without the table [fillTable] still fetches and, when
    the fetches succeed, still replaces [categories]; only then does it
    fail, on the table: it logs a TypeError and returns with every element
    as it was. *)
Theorem fillTable_without_table (w : World) (cats : list Category) :
  eval fetchCategories w = Ok cats -> ~ found jeopardyTable w ->
  eval fillTable w = Ok tt
  /\ categories (exec fillTable w) = cats
  /\ dom (exec fillTable w) = dom w
  /\ console (exec fillTable w)
     = (console (exec fetchCategories w) ++ [TypeError])%list.
Proof.
  intros Hfetch Hnot. split; [apply fillTable_returns|].
  pose proof (fetchCategories_fetch w) as (Hd & _ & Hp & _).
  unfold exec, eval in *. rewrite fillTable_unfold. unfold try_catch.
  destruct (fetchCategories w) as [[cats'|e] w1] eqn:Hf; cbn [fst snd] in *;
    [|discriminate].
  injection Hfetch as ->. rewrite (bind_ok _ _ _ _ _ Hf).
  assert (Hno : ~ found jeopardyTable (set_categories cats w1)).
  { intros (a & ea & Ha & Hea). apply Hnot. exists a, ea.
    cbn in Ha, Hea. rewrite Hp in Ha. rewrite Hd in Hea. auto. }
  unfold modify, bind. rewrite (buildGrid_no_table _ Hno). cbn.
  repeat split; auto.
Qed.

(** ** How many requests *)

Lemma category_urls_length (ids : list JsVal) :
  length (category_urls ids) <= length ids.
Proof.
  induction ids as [|catId ids IH]; [reflexivity|].
  rewrite category_urls_cons, length_app. unfold category_urls at 1.
  cbn [flat_map length]. destruct (ToString catId); cbn; lia.
Qed.

Lemma fetchCategories_count (w : World) :
  length (sent w) < length (sent (exec fetchCategories w))
  <= length (sent w) + 1 + NUM_CATEGORIES.
Proof.
  pose proof (fetchCategories_urls w) as Hu.
  apply (f_equal (@length string)) in Hu. unfold urls in Hu.
  rewrite length_app, !length_map in Hu. cbn [length] in Hu.
  destruct (eval getCategoryIds w) as [ids|e] eqn:Hids.
  - destruct (getCategoryIds_ok_inv w ids Hids) as (data & _ & Hlen & _).
    pose proof (category_urls_length ids). unfold NUM_CATEGORIES in *. lia.
  - cbn in Hu. lia.
Qed.

Lemma fillTable_count (w : World) :
  length (sent w) < length (sent (exec fillTable w))
  <= length (sent w) + 1 + NUM_CATEGORIES.
Proof.
  rewrite (proj1 (fillTable_after_fetch w)). apply fetchCategories_count.
Qed.

(** X16.  [fillTable] sends at least one request and at most one more than
    NUM_CATEGORIES; a game start sends at most twice that, and none when
    the loading view cannot be shown and hidden. *)
Theorem startGame_request_bound (w : World) :
  (length (sent w) < length (sent (exec fillTable w))
   <= length (sent w) + (1 + NUM_CATEGORIES))
  /\ length (sent w) <= length (sent (exec startGame w))
     <= length (sent w) + 2 * (1 + NUM_CATEGORIES)
  /\ (is_ok (eval showLoadingView w) = false \/
      is_ok (eval hideLoadingView (exec showLoadingView w)) = false ->
      sent (exec startGame w) = sent w).
Proof.
  split; [pose proof (fillTable_count w); lia|].
  assert (Hs : sent (exec showLoadingView w) = sent w)
    by apply (showLoadingView_render w).
  assert (Hh : sent (exec hideLoadingView (exec showLoadingView w))
               = sent (exec showLoadingView w))
    by apply (hideLoadingView_render (exec showLoadingView w)).
  pose proof (fetchCategories_count (exec hideLoadingView (exec showLoadingView w)))
    as Hf.
  pose proof (fillTable_count
                (exec fetchCategories (exec hideLoadingView (exec showLoadingView w))))
    as Hft.
  unfold exec, eval, startGame, bind in *.
  destruct (showLoadingView w) as [[[]|e] w0]; cbn [fst snd is_ok] in *.
  2:{ rewrite Hs. split; [lia | auto]. }
  rewrite setupAndStart_unfold. unfold try_catch, bind.
  destruct (hideLoadingView w0) as [[[]|e] w1]; cbn [fst snd is_ok] in *.
  2:{ cbn. rewrite Hh, Hs. split; [lia | auto]. }
  destruct (fetchCategories w1) as [[cats|e] w2]; cbn [fst snd] in *.
  - pose proof (fillTable_returns w2) as Hr. unfold eval in Hr.
    destruct (fillTable w2) as [[[]|e] w3]; cbn [fst snd] in *; [|discriminate].
    rewrite Hh, Hs in *. unfold NUM_CATEGORIES in *.
    split; [lia|]. intros [H | H]; discriminate.
  - cbn. rewrite Hh, Hs in *. unfold NUM_CATEGORIES in *.
    split; [lia|]. intros [H | H]; discriminate.
Qed.

(** ** Which category goes where *)

Lemma getCategory_sent (catId : JsVal) (s : string) (w : World) :
  ToString catId = Ok s ->
  length (sent (exec (getCategory catId) w)) = S (length (sent w)).
Proof.
  intros Hs. pose proof (getCategory_urls catId w) as Hu.
  apply (f_equal (@length string)) in Hu. unfold urls, category_urls in Hu.
  cbn [flat_map] in Hu. rewrite Hs in Hu.
  rewrite length_app, !length_map in Hu. cbn in Hu. lia.
Qed.

Lemma getCategory_ok_response (catId : JsVal) (w : World) (cat : Category) :
  eval (getCategory catId) w = Ok cat ->
  exists s data,
    ToString catId = Ok s /\
    network w (length (sent w)) (clues_url s) = Resolved data /\
    title cat = prop data "title".
Proof.
  intros Hok. pose proof (getCategory_eval catId w) as He. rewrite Hok in He.
  unfold response in He.
  destruct (ToString catId) as [s|e0]; [|discriminate].
  destruct (network w (length (sent w)) (clues_url s)) as [|data] eqn:Hn;
    [discriminate|].
  destruct (clue_items data) as [items|]; [|discriminate].
  destruct (forallb (fun item => negb (nullish item)) items); [|discriminate].
  injection He as ->. exists s, data. auto.
Qed.

(** The i-th category of a fulfilled list of promises is made from the
    answer to the i-th request. *)
Lemma settle_all_order (ids : list JsVal) :
  forall (w : World) (rs : list (Result Category)) (cats : list Category),
    eval (settle_all (map getCategory ids)) w = Ok rs ->
    sequence_result rs = Ok cats ->
    forall i cat, cats !! i = Some cat ->
      exists catId s data,
        ids !! i = Some catId /\ ToString catId = Ok s /\
        network w (length (sent w) + i) (clues_url s) = Resolved data /\
        title cat = prop data "title".
Proof.
  induction ids as [|catId ids IH]; intros w rs cats Hrs Hseq i cat Hi.
  - cbn in Hrs. injection Hrs as <-. cbn in Hseq. injection Hseq as <-.
    discriminate.
  - pose proof (getCategory_ok_response catId w) as Hresp.
    pose proof (fun s => getCategory_sent catId s w) as Hsent.
    pose proof (getCategory_fetch catId w) as (_ & _ & _ & Hnet & _).
    unfold eval, exec in *. cbn [map settle_all] in *.
    destruct (getCategory catId w) as [r w1]. cbn [fst snd] in *.
    specialize (IH w1).
    destruct (settle_all (map getCategory ids) w1) as [[rs'|e] w2];
      cbn [fst snd] in *; [|discriminate].
    injection Hrs as <-. cbn [sequence_result] in Hseq.
    destruct r as [cat0|e]; [|discriminate].
    destruct (sequence_result rs') as [cats'|e] eqn:Hseq'; [|discriminate].
    injection Hseq as <-.
    destruct (Hresp cat0 eq_refl) as (s & data & Hs & Hd & Ht).
    destruct i as [|i]; cbn in Hi.
    + injection Hi as <-. exists catId, s, data.
      rewrite Nat.add_0_r. auto.
    + destruct (IH rs' cats' eq_refl Hseq' i cat Hi)
        as (catId' & s' & data' & Hid & Hs' & Hd' & Ht').
      exists catId', s', data'. split; [exact Hid|]. split; [exact Hs'|].
      split; [|exact Ht'].
      specialize (Hsent s Hs).
      rewrite Hnet, Hsent in Hd'.
      replace (length (sent w) + S i) with (S (length (sent w)) + i) by lia.
      exact Hd'.
Qed.

(** X17.  The categories come in the order of the sample: when the fetches
    succeed, the i-th category that [fillTable] leaves in [categories]
    (and so the i-th column of the board) bears the title of the answer to
    the request made for the i-th identifier of the sample, which is the
    i-th request after the one for the identifiers. *)
Theorem fillTable_category_order
    (w : World) (cats : list Category) (i : nat) (cat : Category) :
  eval fetchCategories w = Ok cats ->
  categories (exec fillTable w) !! i = Some cat ->
  exists ids catId s data,
    eval getCategoryIds w = Ok ids /\ ids !! i = Some catId /\
    ToString catId = Ok s /\
    network w (S (length (sent w)) + i) (clues_url s) = Resolved data /\
    title cat = prop data "title".
Proof.
  intros Hfetch Hi.
  rewrite (proj2 (fillTable_after_fetch w) cats Hfetch) in Hi.
  pose proof (getCategoryIds_urls w) as Hu.
  apply (f_equal (@length string)) in Hu. unfold urls in Hu.
  rewrite length_app, !length_map in Hu. cbn [length] in Hu.
  pose proof (getCategoryIds_fetch w) as (_ & _ & _ & Hnet & _).
  unfold eval, exec, fetchCategories, bind in *.
  destruct (getCategoryIds w) as [[ids|e] w1]; cbn [fst snd] in *; [|discriminate].
  unfold Promise_all, bind, lift in Hfetch.
  pose proof (settle_all_order ids w1) as Ho. unfold eval in Ho.
  destruct (settle_all (map getCategory ids) w1) as [[rs|e] w2];
    cbn [fst snd] in *; [|discriminate].
  destruct (Ho rs cats eq_refl Hfetch i cat Hi) as (catId & s & data & H1 & H2 & H3 & H4).
  exists ids, catId, s, data. split; [reflexivity|]. split; [exact H1|].
  split; [exact H2|]. split; [|exact H4].
  rewrite Hnet, Hu in H3.
  replace (S (length (sent w)) + i) with (length (sent w) + 1 + i) by lia.
  exact H3.
Qed.

(** ** The further properties on sample worlds *)

Lemma startGame_keeps_clues_witness :
  heap replay_world !! 0 = Some (mkClue (JStr "2+2") (JNum "4") (JStr "answer"))
  /\ heap (exec startGame replay_world) !! 0
     = Some (mkClue (JStr "2+2") (JNum "4") (JStr "answer")).
Proof.
  split; [reflexivity|].
  exact (proj1 (startGame_keeps_clues replay_world 0 _ eq_refl)).
Defined.

Lemma startGame_exceptions_witness :
  eval startGame clue_world = Throw TypeError
  /\ exec startGame clue_world = exec showLoadingView clue_world.
Proof.
  assert (H : eval startGame clue_world = Throw TypeError) by reflexivity.
  split; [exact H|].
  exact (proj1 (proj2 (proj2 (proj2 (proj2 (startGame_exceptions clue_world)))
                         TypeError H))).
Defined.

Lemma getCategoryIds_failures_witness :
  network down_world (length (sent down_world)) ids_url = Rejected
  /\ eval getCategoryIds down_world = Throw NetworkError.
Proof.
  split; [reflexivity|].
  exact (proj1 (getCategoryIds_failures down_world) eq_refl).
Defined.

Lemma getCategoryIds_effects_witness :
  eval getCategoryIds sample_world
  = Ok [JNum "12"; JNum "16"; JNum "14"; JNum "13"; JNum "11"; JNum "17"]
  /\ exists data,
       network sample_world (length (sent sample_world)) ids_url = Resolved data /\
       6 = Nat.min NUM_CATEGORIES (pool_size data) /\
       drawn (exec getCategoryIds sample_world) = drawn sample_world + 6.
Proof.
  assert (H : eval getCategoryIds sample_world
              = Ok [JNum "12"; JNum "16"; JNum "14"; JNum "13"; JNum "11"; JNum "17"])
    by (vm_compute; reflexivity).
  split; [exact H|].
  exact (proj2 (proj2 (proj2 (proj2 (getCategoryIds_effects sample_world)))) _ H).
Defined.

Lemma getCategory_effects_witness :
  is_ok (eval (getCategory (JNum "11")) down_world) = false
  /\ console (exec (getCategory (JNum "11")) down_world) = [NetworkError].
Proof.
  assert (H : is_ok (eval (getCategory (JNum "11")) down_world) = false)
    by reflexivity.
  split; [exact H|].
  exact (proj2 (proj2 (proj2 (proj2 (proj2
           (getCategory_effects down_world (JNum "11")))))) H).
Defined.

Lemma fillTable_fresh_clues_witness :
  eval fetchCategories ready_world = Ok sample_categories
  /\ length sample_categories <= NUM_CATEGORIES
  /\ NoDup (all_clues sample_categories).
Proof.
  assert (Hfetch : eval fetchCategories ready_world = Ok sample_categories)
    by (vm_compute; reflexivity).
  split; [exact Hfetch|].
  pose proof (fillTable_fresh_clues ready_world sample_categories Hfetch)
    as (_ & _ & Hlen & Hnd & _).
  split; [exact Hlen | exact Hnd].
Defined.

Lemma showLoadingView_wipes_witness :
  dom played_world !! 0 = Some played_table
  /\ childNodes played_table <> []
  /\ empty_at "table" 0 (dom (exec showLoadingView played_world)).
Proof.
  assert (H : dom played_world !! 0 = Some played_table)
    by (vm_compute; reflexivity).
  split; [exact H|]. split; [discriminate|].
  refine (proj1 (showLoadingView_wipes played_world 0 played_table _ H _)).
  - vm_compute; reflexivity.
  - vm_compute. discriminate.
Defined.

Lemma hideLoadingView_keeps_board_witness :
  dom (exec hideLoadingView played_world) !! 0 = dom played_world !! 0.
Proof.
  refine (proj1 (proj2 (hideLoadingView_keeps_board played_world)) 0 _ _);
    vm_compute; discriminate.
Defined.

Lemma addClueClickHandler_listeners_witness :
  dom sample_world !! 3 = Some (sample_element "h1" ["clue"])
  /\ (clickListeners <$> dom (exec addClueClickHandler sample_world) !! 3) = Some 1
  /\ (clickListeners <$> dom (exec addClueClickHandler sample_world) !! 0) = Some 0.
Proof.
  split; [reflexivity|]. split.
  - rewrite (proj1 (proj2 (addClueClickHandler_listeners sample_world 3 _ eq_refl))).
    reflexivity.
  - rewrite (proj1 (proj2 (addClueClickHandler_listeners sample_world 0 _ eq_refl))).
    reflexivity.
Defined.

Lemma handleClick_throws_unchanged_witness :
  eval (handleClick (VElem 3)) sample_world = Throw TypeError
  /\ exec (handleClick (VElem 3)) sample_world = sample_world.
Proof.
  assert (H : eval (handleClick (VElem 3)) sample_world = Throw TypeError)
    by reflexivity.
  split; [exact H|].
  exact (handleClick_throws_unchanged sample_world (VElem 3) TypeError H).
Defined.

Lemma handleClick_writes_witness :
  dom (exec (handleClick (VEvent (VElem 0))) shared_world) !! 1
  = dom shared_world !! 1.
Proof.
  refine (proj1 (handleClick_writes shared_world (VEvent (VElem 0))) 1 _).
  discriminate.
Defined.

Lemma handleClick_shared_clue_witness :
  displayed (dom (exec (handleClick (VEvent (VElem 1)))
                    (exec (handleClick (VEvent (VElem 0))) shared_world))) 0 = "2+2"
  /\ displayed (dom (exec (handleClick (VEvent (VElem 1)))
                       (exec (handleClick (VEvent (VElem 0))) shared_world))) 1 = "4".
Proof.
  assert (Hne : 0 <> 1) by discriminate.
  pose proof (handleClick_shared_clue shared_world 0 1 clue_cell clue_cell 0
                sample_clue "2+2" "4" Hne
                eq_refl eq_refl eq_refl eq_refl eq_refl eq_refl eq_refl eq_refl)
    as (H1 & H2 & _).
  split; [exact H1 | exact H2].
Defined.


Lemma fillTable_without_table_witness :
  eval fetchCategories tableless_world = Ok tableless_categories
  /\ categories (exec fillTable tableless_world) = tableless_categories
  /\ dom (exec fillTable tableless_world) = dom tableless_world.
Proof.
  assert (Hfetch : eval fetchCategories tableless_world = Ok tableless_categories)
    by (vm_compute; reflexivity).
  split; [exact Hfetch|].
  assert (Hnot : ~ found jeopardyTable tableless_world)
    by (intros (a & e & Ha & _); discriminate).
  pose proof (fillTable_without_table tableless_world tableless_categories
                Hfetch Hnot) as (_ & Hc & Hd & _).
  split; [exact Hc | exact Hd].
Defined.

Lemma startGame_request_bound_witness :
  is_ok (eval showLoadingView clue_world) = false
  /\ sent (exec startGame clue_world) = sent clue_world.
Proof.
  assert (H : is_ok (eval showLoadingView clue_world) = false) by reflexivity.
  split; [exact H|].
  exact (proj2 (proj2 (startGame_request_bound clue_world)) (or_introl H)).
Defined.

Lemma fillTable_category_order_witness :
  eval fetchCategories ready_world = Ok sample_categories
  /\ exists ids catId s data,
       eval getCategoryIds ready_world = Ok ids /\ ids !! 0 = Some catId /\
       ToString catId = Ok s /\
       network ready_world (S (length (sent ready_world)) + 0) (clues_url s)
       = Resolved data /\
       JStr "Math" = prop data "title".
Proof.
  assert (Hfetch : eval fetchCategories ready_world = Ok sample_categories)
    by (vm_compute; reflexivity).
  split; [exact Hfetch|].
  refine (fillTable_category_order ready_world sample_categories 0
            {| title := JStr "Math"; clues := [0; 1; 2; 3; 4] |} Hfetch _).
  vm_compute; reflexivity.
Defined.

(** ** A game start whose fetches fail *)




(** ** What a fill of the table reports on the console *)







